(** * openpathsampling/chaindict.py: the lookup chain, the persistent store
      and the fan-out store

    A shallow embedding of [chaindict.py] (Python 2).  Python objects that are
    shared and mutated through references (the links of a chain, joined by
    their [post] attribute) live in a heap; objects that own their parts
    exclusively ([Store], [BufferedStore], [MultiStore]) are records threaded
    through a state monad together with the external storage medium.

    [None] is the value the source uses for "no value"; a Python value is
    therefore an [option V], and a [dict] holding values is a
    [gmap Key (option V)]: the source can store [None] under a key. *)

From Stdlib Require Import ZArith Sorted Permutation.
From stdpp Require Import base option list gmap fin_maps fin_sets.

Set Default Proof Using "Type".

(** ** Python runtime: exceptions, the state-and-exception monad, builtins *)

Module Py.

(** Identity of a key object, of a storage handle and of a chain link. *)
Abbreviation Key := positive.
Abbreviation Handle := positive.
Abbreviation loc := positive.

Inductive exn :=
| StopIteration | KeyError | TypeError | IndexError | RuntimeError
| IOError.

(** [Stuck] is not a Python outcome: the model ran out of fuel or followed a
    reference that is not in the heap. *)
Inductive result (A : Type) :=
| Ok (a : A)
| Raise (e : exn)
| Stuck.
Arguments Ok {A} a.
Arguments Raise {A} e.
Arguments Stuck {A}.

(** A computation over a world [W]; the world is kept when an exception is
    raised, as the mutations made before a [raise] are. *)
Definition M (W A : Type) : Type := W -> result A * W.

Definition ret {W A} (a : A) : M W A := fun w => (Ok a, w).
Definition raise {W A} (e : exn) : M W A := fun w => (Raise e, w).
Definition stuck {W A} : M W A := fun w => (Stuck, w).
Definition bind {W A B} (m : M W A) (k : A -> M W B) : M W B :=
  fun w =>
    match m w with
    | (Ok a, w') => k a w'
    | (Raise e, w') => (Raise e, w')
    | (Stuck, w') => (Stuck, w')
    end.
Definition get {W} : M W W := fun w => (Ok w, w).
Definition gets {W A} (f : W -> A) : M W A := fun w => (Ok (f w), w).
Definition modify {W} (f : W -> W) : M W unit := fun w => (Ok tt, f w).
Definition lift {W A} (r : result A) : M W A := fun w => (r, w).

(** Run a computation on a part [S] of the world [T * E], leaving the rest
    of [T] alone ([E] is the external world, shared by all). *)
Definition zoom {S T E A} (proj : T -> S) (upd : S -> T -> T)
    (m : M (S * E) A) : M (T * E) A :=
  fun w =>
    match m (proj (fst w), snd w) with
    | (r, (s', e')) => (r, (upd s' (fst w), e'))
    end.

Declare Scope py_scope.
Delimit Scope py_scope with py.
Notation "x <- c ;; k" := (bind c (fun x => k))
  (at level 100, c at next level, right associativity) : py_scope.
Notation "c ;;; k" := (bind c (fun _ => k))
  (at level 100, right associativity) : py_scope.

Section Builtins.
Context {A : Type}.

(** [sorted(l, key=key)]: Python's sort is stable, and so is this
    insertion sort (an element stays before the equal ones that followed
    it). *)
Fixpoint sorted_insert (key : A -> Z) (x : A) (l : list A) : list A :=
  match l with
  | [] => [x]
  | y :: l' =>
      if (key x <=? key y)%Z then x :: y :: l'
      else y :: sorted_insert key x l'
  end.

Fixpoint sorted (key : A -> Z) (l : list A) : list A :=
  match l with
  | [] => []
  | x :: l' => sorted_insert key x (sorted key l')
  end.

(** The order [sorted] establishes. *)
Definition key_le (key : A -> Z) (a b : A) : Prop := (key a <= key b)%Z.

(** [enumerate(l)] *)
Definition enumerate (l : list A) : list (nat * A) := imap pair l.

(** [[x] * n] *)
Definition times (x : A) (n : nat) : list A := replicate n x.
End Builtins.

Section Iterators.
Context {V : Type}.

(** [it = iter(replace); [obj if obj is not None else it.next() for obj in
    nones]]: the comprehension of [ChainDict._replace_none], which
    [ChainDict.__getitem__] repeats inline.  [it.next()] on an exhausted
    iterator raises [StopIteration], which a list comprehension does not
    catch. *)
Fixpoint replace_none (nones replace : list (option V))
    : result (list (option V)) :=
  match nones with
  | [] => Ok []
  | Some v :: nones' =>
      match replace_none nones' replace with
      | Ok r => Ok (Some v :: r)
      | Raise e => Raise e
      | Stuck => Stuck
      end
  | None :: nones' =>
      match replace with
      | [] => Raise StopIteration
      | x :: replace' =>
          match replace_none nones' replace' with
          | Ok r => Ok (x :: r)
          | Raise e => Raise e
          | Stuck => Stuck
          end
      end
  end.

(** [[obj[0] for obj in zip(items, results) if obj[1] is None]] *)
Definition nones_of {K : Type} (ps : list (K * option V)) : list K :=
  (filter (fun p => snd p = None) ps).*1.
End Iterators.

Section Loops.
Context {W : Type}.

(** [[f(x) for x in l]] with an effectful [f]. *)
Fixpoint mapM {A B} (f : A -> M W B) (l : list A) : M W (list B) :=
  match l with
  | [] => ret []
  | x :: l' => bind (f x) (fun y => bind (mapM f l') (fun r => ret (y :: r)))
  end.

(** A [for] loop over a list, the loop's variables in [acc]. *)
Fixpoint foldM {A B} (body : A -> B -> M W B) (l : list A) (acc : B)
    : M W B :=
  match l with
  | [] => ret acc
  | x :: l' => bind (body x acc) (foldM body l')
  end.

(** [for k in d: body], [d] a dict of the world whose size is [size_now]
    and whose keys were [ks] when the loop started.  CPython's dict iterator
    keeps the size the dict had when the iterator was made and compares it
    with the current size on every [next], also on the one that would end the
    loop: if they differ it raises [RuntimeError] ("dictionary changed size
    during iteration"). *)
Fixpoint dict_for {K B} (size_now : W -> nat) (n0 : nat) (ks : list K)
    (body : K -> B -> M W B) (acc : B) : M W B :=
  bind (gets size_now) (fun n =>
    if decide (n = n0) then
      match ks with
      | [] => ret acc
      | k :: ks' =>
          bind (body k acc) (dict_for size_now n0 ks' body)
      end
    else raise RuntimeError).
End Loops.

End Py.

Import Py.
Local Open Scope py_scope.

(** ** The heap of chain links

  A link is an instance of [ChainDict] or of one of its subclasses; [post]
  refers to the next link.  [__add__] assigns [post] through a reference,
  so links are heap objects. *)

Module Heap.
Section Objects.
Context {V : Type}.
Local Abbreviation val := (option V).

Inductive cls := CChainDict | CWrap | CExpandMulti | CFunction.

(** A Python callable, applied to a list of keys or to one key.  The
    evaluation functions are taken to be pure. *)
Record callable := {
  call_list : list Key -> list val;
  call_item : Key -> val
}.

Record obj := {
  o_cls : cls;
  o_dict : gmap Key val;            (* the [dict] part of the instance *)
  post : option loc;                (* [self.post] *)
  _eval : option callable;          (* [Function._eval] *)
  fnc_uses_lists : bool             (* [Function.fnc_uses_lists] *)
}.

Definition with_post (p : option loc) (o : obj) : obj :=
  {| o_cls := o_cls o; o_dict := o_dict o; post := p;
     _eval := _eval o; fnc_uses_lists := fnc_uses_lists o |}.

Definition with_dict (d : gmap Key val) (o : obj) : obj :=
  {| o_cls := o_cls o; o_dict := d; post := post o;
     _eval := _eval o; fnc_uses_lists := fnc_uses_lists o |}.

(** An instrumentation of the model: every entry into a link's
    [__getitem__] is recorded. *)
Inductive event := Getitem (l : loc) (items : list Key).

Record world := { heap : gmap loc obj; trace : list event }.

Definition deref (l : loc) : M world obj :=
  fun w => match heap w !! l with
           | Some o => (Ok o, w)
           | None => (Stuck, w)
           end.

Definition assign (l : loc) (o : obj) : M world unit :=
  modify (fun w => {| heap := <[l := o]> (heap w); trace := trace w |}).

Definition record (e : event) : M world unit :=
  modify (fun w => {| heap := heap w; trace := trace w ++ [e] |}).


(** No object disappears from the heap. *)
Definition keeps_objects (w w' : world) : Prop :=
  forall x, is_Some (heap w !! x) -> is_Some (heap w' !! x).
End Objects.
Arguments callable : clear implicits.
Arguments obj : clear implicits.
Arguments event : clear implicits.
Arguments world : clear implicits.
End Heap.

Module ChainDict.
Import Heap.
Section Methods.
Context {V : Type}.
Local Abbreviation val := (option V).

(** [ChainDict._get]: [dict.__getitem__], [None] on [KeyError]. *)
Definition _get (d : gmap Key val) (item : Key) : val :=
  match d !! item with
  | Some v => v
  | None => None
  end.

Definition _get_list (d : gmap Key val) (items : list Key) : list val :=
  map (_get d) items.

Definition _set (d : gmap Key val) (item : Key) (value : val)
    : gmap Key val :=
  match value with
  | Some _ => <[item := value]> d
  | None => d
  end.

Definition _set_list (d : gmap Key val) (items : list Key)
    (values : list val) : gmap Key val :=
  foldl (fun d p => _set d (fst p) (snd p)) d
        (filter (fun p => is_Some (snd p)) (zip items values)).

(** [ChainDict.__getitem__], with the methods it calls on [self]
    ([_get_list], [_add_new]) and the attribute [self.post] as
    parameters: subclasses override them. *)
Definition __getitem__ {W}
    (_get_list : list Key -> M W (list val))
    (post : option (list Key -> M W (list val)))
    (_add_new : list Key -> list val -> M W unit)
    (items : list Key) : M W (list val) :=
  results <- _get_list items ;;
  match post with
  | Some post_getitem =>
      let nones := nones_of (zip items results) in
      if decide (length nones = 0) then ret results
      else
        rep <- post_getitem nones ;;
        _add_new nones rep ;;;
        lift (replace_none (zip items results).*2 rep)
  | None => ret results
  end.

(** [ChainDict._add_new] on a heap object: [self[items] = values], and
    [__setitem__] with a list as key is [_set_list]. *)
Definition _add_new (self : loc) (items : list Key) (values : list val)
    : M (world V) unit :=
  o <- deref self ;;
  assign self (with_dict (_set_list (o_dict o) items values) o).

(** [ChainDict.__add__(self, other)]: [other.post = self; return other]. *)
Definition __add__ (self other : loc) : M (world V) loc :=
  o <- deref other ;;
  assign other (with_post (Some self) o) ;;;
  ret other.
End Methods.
End ChainDict.

Module Wrap.
Section Methods.
Context {V W : Type}.
Local Abbreviation val := (option V).

(** [Wrap.__getitem__]: [return self.post[items]]; subscripting [None]
    is a [TypeError]. *)
Definition __getitem__ (post : option (list Key -> M W (list val)))
    (items : list Key) : M W (list val) :=
  match post with
  | Some post_getitem => post_getitem items
  | None => raise TypeError
  end.
End Methods.
End Wrap.

Module ExpandMulti.
Section Methods.
Context {V W : Type}.
Local Abbreviation val := (option V).

(** [list(set(items))]: the distinct keys, in the order of the set. *)
Definition uniques (items : list Key) : list Key :=
  elements (list_to_set items : gset Key).

(** [dict(zip(uniques, rep_unique))] *)
Definition multi_cache (kvs : list (Key * val)) : gmap Key val :=
  foldl (fun m p => <[fst p := snd p]> m) ∅ kvs.

(** [[multi_cache[item] for item in items]] *)
Fixpoint expand (m : gmap Key val) (items : list Key)
    : result (list val) :=
  match items with
  | [] => Ok []
  | item :: items' =>
      match m !! item with
      | None => Raise KeyError
      | Some v =>
          match expand m items' with
          | Ok r => Ok (v :: r)
          | Raise e => Raise e
          | Stuck => Stuck
          end
      end
  end.

Definition __getitem__ (post : option (list Key -> M W (list val)))
    (items : list Key) : M W (list val) :=
  if decide (length items = 0) then ret []
  else
    match post with
    | None => raise TypeError
    | Some post_getitem =>
        rep_unique <- post_getitem (uniques items) ;;
        lift (expand (multi_cache (zip (uniques items) rep_unique)) items)
    end.
End Methods.
End ExpandMulti.

Module Function.
Import Heap.
Section Methods.
Context {V : Type}.
Local Abbreviation val := (option V).

Definition _get_list (_eval : option (callable V)) (fnc_uses_lists : bool)
    (items : list Key) : list val :=
  match _eval with
  | None => times None (length items)
  | Some f =>
      if fnc_uses_lists then call_list f items
      else map (call_item f) items
  end.
End Methods.
End Function.

(** Subscripting a link, [link[items]]: the class of the object selects the
  [__getitem__] that runs.  Chains are followed through the heap, so the
  recursion is on fuel. *)
Module Link.
Import Heap.
Section Dispatch.
Context {V : Type}.
Local Abbreviation val := (option V).

(** [self._get_list(items)] for the classes that keep
    [ChainDict.__getitem__]: [Function] overrides [_get_list]. *)
Definition _get_list (o : obj V) (items : list Key) : list val :=
  match o_cls o with
  | CFunction => Function._get_list (_eval o) (fnc_uses_lists o) items
  | _ => ChainDict._get_list (o_dict o) items
  end.

Fixpoint getitem (fuel : nat) (self : loc) (items : list Key)
    : M (world V) (list val) :=
  match fuel with
  | 0 => stuck
  | S fuel' =>
      record (Getitem self items) ;;;
      o <- deref self ;;
      let post := option_map (getitem fuel') (post o) in
      match o_cls o with
      | CChainDict | CFunction =>
          ChainDict.__getitem__ (fun its => ret (_get_list o its))
                                post (ChainDict._add_new self) items
      | CWrap => Wrap.__getitem__ post items
      | CExpandMulti => ExpandMulti.__getitem__ post items
      end
  end.

(** *** Well-formed chains

    [local o k] is what the link [o] itself answers for the key [k].  A chain
    of [n] links starting at [l] is well formed when it ends ([post] is
    [None] after [n] links), the links that only delegate ([Wrap],
    [ExpandMulti]) are not last, and every link answers a batch key by key:
    for [Function] this is the contract of a list-mode evaluation function,
    one value per key, in the order of the keys. *)
Definition local (o : obj V) (k : Key) : val :=
  default None (head (_get_list o [k])).

Definition keywise (o : obj V) : Prop :=
  forall items, _get_list o items = map (local o) items.

Fixpoint chain_ok (h : gmap loc (obj V)) (n : nat) (l : loc) : Prop :=
  match n with
  | 0 => False
  | S n' =>
      exists o, h !! l = Some o /\
        match o_cls o with
        | CChainDict | CFunction =>
            keywise o /\
            match post o with
            | None => True
            | Some p => chain_ok h n' p
            end
        | CWrap | CExpandMulti =>
            match post o with
            | None => False
            | Some p => chain_ok h n' p
            end
        end
  end.

(** The value of the chain at a key: the answer of the first link that has
    one. *)
Fixpoint chain_value (h : gmap loc (obj V)) (n : nat) (l : loc) (k : Key)
    : val :=
  match n with
  | 0 => None
  | S n' =>
      match h !! l with
      | None => None
      | Some o =>
          let behind :=
            match post o with
            | Some p => chain_value h n' p k
            | None => None
            end in
          match o_cls o with
          | CChainDict | CFunction =>
              match local o k with
              | Some v => Some v
              | None => behind
              end
          | CWrap | CExpandMulti => behind
          end
      end
  end.
End Dispatch.
End Link.

(** ** The storage medium and the offsets of the keys

    The medium ([store.get_list_value], [store.set_list_value]) and the
    offset maps of the keys ([key.idx]) belong to code outside this file.
    The medium is a state of an arbitrary type with two operations that may
    raise; the model records every call made to it. *)

Module Medium.
Section Medium.
Context {V Med : Type}.
Local Abbreviation val := (option V).

Inductive call :=
| GetListValue (store : Handle) (offsets : list Z)
| SetListValue (store : Handle) (offsets : list Z) (values : list val).

Record driver := {
  drv_get_list_value : Handle -> list Z -> Med -> result (list val) * Med;
  drv_set_list_value : Handle -> list Z -> list val -> Med -> result unit * Med
}.

Record ext := { med : Med; calls : list call }.

Context (drv : driver).

(** [store.get_list_value(scope, offsets)] *)
Definition get_list_value {S} (store : Handle) (offsets : list Z)
    : M (S * ext) (list val) :=
  fun w =>
    match drv_get_list_value drv store offsets (med (snd w)) with
    | (r, m') =>
        (r, (fst w, {| med := m';
                       calls := calls (snd w) ++ [GetListValue store offsets] |}))
    end.

(** [store.set_list_value(scope, offsets, values)] *)
Definition set_list_value {S} (store : Handle) (offsets : list Z)
    (values : list val) : M (S * ext) unit :=
  fun w =>
    match drv_set_list_value drv store offsets values (med (snd w)) with
    | (r, m') =>
        (r, (fst w, {| med := m';
                       calls := calls (snd w)
                                  ++ [SetListValue store offsets values] |}))
    end.
End Medium.
Arguments call : clear implicits.
Arguments driver : clear implicits.
Arguments ext : clear implicits.
End Medium.

(** ** [Store] *)

Module Store.
Import Medium.
Section Methods.
Context {V Med : Type}.
Local Abbreviation val := (option V).

Record state := {
  store : Handle;                       (* [self.store] *)
  content_store : Handle;               (* [self.content_store] *)
  data : gmap Key val;                  (* the [dict] part: the write buffer *)
  max_save_buffer_size : option Z
}.

Definition with_data (d : gmap Key val) (s : state) : state :=
  {| store := store s; content_store := content_store s; data := d;
     max_save_buffer_size := max_save_buffer_size s |}.

(** [content_store_of store] is
    [store.storage._obj_store[store.key_class]]. *)
Definition __init__ (content_store_of : Handle -> Handle) (store : Handle)
    : state :=
  {| store := store; content_store := content_store_of store; data := ∅;
     max_save_buffer_size := None |}.

(** [zero] is the float [0.0], [drv] the medium, [idx item] the offset map
    [item.idx] of a key. *)
Context (zero : V) (drv : driver V Med) (idx : Key -> gmap Handle Z).

Local Abbreviation W := (state * ext V Med)%type.

Definition self : M W state := gets fst.
Definition set_data (d : gmap Key val) : M W unit :=
  modify (fun w => (with_data d (fst w), snd w)).

(** [Store._get_key]; a [Key] is an object, never [None]. *)
Definition _get_key (s : state) (item : Key) : option Z :=
  if decide (is_Some (idx item !! store s)) then idx item !! store s
  else None.

(** [ret.__setitem__(idx, values_sorted[pos])] for [pos, idx] in
    [enumerate(loadable_idxs)]; both subscripts raise [IndexError] out of
    range. *)
Fixpoint scatter (values_sorted : list val) (pis : list (nat * nat))
    (ret : list val) : result (list val) :=
  match pis with
  | [] => Ok ret
  | (pos, i) :: pis' =>
      match values_sorted !! pos with
      | None => Raise IndexError
      | Some v =>
          if decide (i < length ret) then scatter values_sorted pis' (<[i := v]> ret)
          else Raise IndexError
      end
  end.

Definition _load_list (keys : list Z) : M W (list val) :=
  if decide (0 < length keys) then
    let keys_sorted := sorted snd (enumerate keys) in
    let loadable_keys := keys_sorted.*2 in
    let loadable_idxs := keys_sorted.*1 in
    s <- self ;;
    values_sorted <- get_list_value drv (store s) loadable_keys ;;
    lift (scatter values_sorted (enumerate loadable_idxs)
                  (times (Some zero) (length keys)))
  else ret [].

(** [it = iter(replace); [it.next() if obj is not None else None for obj in
    items]] *)
Fixpoint fill_some (items : list (option Z)) (replace : list val)
    : result (list val) :=
  match items with
  | [] => Ok []
  | None :: items' =>
      match fill_some items' replace with
      | Ok r => Ok (None :: r)
      | Raise e => Raise e
      | Stuck => Stuck
      end
  | Some _ :: items' =>
      match replace with
      | [] => Raise StopIteration
      | x :: replace' =>
          match fill_some items' replace' with
          | Ok r => Ok (x :: r)
          | Raise e => Raise e
          | Stuck => Stuck
          end
      end
  end.

(** [ChainDict._apply_some_list] *)
Definition _apply_some_list (func : list Z -> M W (list val))
    (items : list (option Z)) : M W (list val) :=
  let some := omap id items in
  replace <- func some ;;
  lift (fill_some items replace).

(** [dct[item]] in [_split_list_dict(self, items)], where [dct] is the store
    itself: the subscript is not [dict.__getitem__] but the [__getitem__] the
    class inherits from [ChainDict], entered with the bare key as [items];
    [Store._get_list] then iterates over the key, and a key object is not
    iterable. *)
Definition subscript_key (item : Key) : M W val := raise TypeError.

(** [ChainDict._split_list_dict(dct, items)] with [dct] the store:
    [item in dct] is [dict.__contains__]. *)
Definition _split_list_dict (items : list Key) : M W (list val * list Key) :=
  s <- self ;;
  nones <- mapM (fun item =>
                   if decide (is_Some (data s !! item)) then subscript_key item
                   else ret None) items ;;
  ret (nones, filter (fun item => ¬ is_Some (data s !! item)) items).

Definition _get_list (items : list Key) : M W (list val) :=
  cm <- _split_list_dict items ;;
  s <- self ;;
  let keys := map (_get_key s) (snd cm) in
  replace <- _apply_some_list _load_list keys ;;
  lift (replace_none (fst cm) replace).

(** [ChainDict._set], which [Store] inherits. *)
Definition _set (item : Key) (value : val) : M W unit :=
  s <- self ;;
  set_data (ChainDict._set (data s) item value).

(** [key.idx[self.content_store]] for the buffered keys that have one;
    [self.iteritems()] is the list of the entries of the buffer. *)
Definition storable (s : state) : list (Z * val) :=
  omap (fun kv =>
          if decide (0 < size (idx (fst kv))) then
            match idx (fst kv) !! content_store s with
            | Some off => Some (off, snd kv)
            | None => None
            end
          else None)
       (map_to_list (data s)).

Definition sync : M W unit :=
  s <- self ;;
  let storable := storable s in
  if decide (0 < length storable) then
    let storable_sorted := sorted fst storable in
    let storable_keys := storable_sorted.*1 in
    let storable_values := storable_sorted.*2 in
    set_list_value drv (store s) storable_keys storable_values ;;;
    set_data ∅
  else set_data ∅.

Definition _add_new (items : list Key) (values : list val) : M W unit :=
  s <- self ;;
  set_data (foldl (fun d p => <[fst p := snd p]> d) (data s)
                  (zip items values)) ;;;
  s <- self ;;
  match max_save_buffer_size s with
  | Some limit =>
      if decide (limit < Z.of_nat (size (data s)))%Z then sync else ret tt
  | None => ret tt
  end.

(** [store[items]]: [ChainDict.__getitem__] with the methods of [Store];
    [post] is the link behind the store, if there is one. *)
Definition __getitem__ (post : option (list Key -> M W (list val)))
    (items : list Key) : M W (list val) :=
  ChainDict.__getitem__ _get_list post _add_new items.
End Methods.
Arguments state : clear implicits.
End Store.

(** ** [BufferedStore] *)

Module BufferedStore.
Import Medium.
Section Methods.
Context {V Med : Type}.
Local Abbreviation val := (option V).

(** [self.post] is [self._store + self._cache], that is [self._cache] with
    [self._cache.post = self._store]; both objects are reached through the
    buffered store only. *)
Record state := {
  store : Handle;
  _store : Store.state V;
  _cache : gmap Key val;
  content_store : Handle
}.

Definition with_store (s : Store.state V) (b : state) : state :=
  {| store := store b; _store := s; _cache := _cache b;
     content_store := content_store b |}.

Definition with_cache (c : gmap Key val) (b : state) : state :=
  {| store := store b; _store := _store b; _cache := c;
     content_store := content_store b |}.

Definition __init__ (content_store_of : Handle -> Handle) (store : Handle)
    : state :=
  {| store := store; _store := Store.__init__ content_store_of store;
     _cache := ∅; content_store := content_store_of store |}.

Context (zero : V) (drv : driver V Med) (idx : Key -> gmap Handle Z).

Local Abbreviation W := (state * ext V Med)%type.

Definition self : M W state := gets fst.
Definition set_cache (c : gmap Key val) : M W unit :=
  modify (fun w => (with_cache c (fst w), snd w)).

(** A method of [self._store]. *)
Definition on_store {A} (m : M (Store.state V * ext V Med) A) : M W A :=
  zoom _store with_store m.

(** [self._cache._add_new], the one of [ChainDict]. *)
Definition cache_add_new (items : list Key) (values : list val) : M W unit :=
  b <- self ;;
  set_cache (ChainDict._set_list (_cache b) items values).

(** [Wrap.__getitem__]: [self.post[items]], the subscript of [self._cache],
    a [ChainDict] whose [post] is [self._store]; the store has no [post]. *)
Definition __getitem__ (items : list Key) : M W (list val) :=
  Wrap.__getitem__
    (Some (ChainDict.__getitem__
             (fun its => b <- self ;; ret (ChainDict._get_list (_cache b) its))
             (Some (fun its => on_store (Store.__getitem__ zero drv idx None its)))
             cache_add_new))
    items.

Definition sync : M W unit := on_store (Store.sync drv idx).

(** The body of the loop of [BufferedStore._add_new]. *)
Definition add_one (item : Key) (value : val) : M W unit :=
  match value with
  | Some _ =>
      b <- self ;;
      if decide (0 < size (idx item) ∧ is_Some (idx item !! content_store b))
      then
        set_cache (ChainDict._set (_cache b) item value) ;;;
        on_store (Store._set item value)
      else ret tt
  | None => ret tt
  end.

Definition _add_new (items : list Key) (values : list val) : M W unit :=
  foldM (fun p _ => add_one (fst p) (snd p)) (zip items values) tt.
End Methods.
Arguments state : clear implicits.
End BufferedStore.

(** ** [MultiStore] *)

Module MultiStore.
Import Medium.
Section Methods.
Context {V Med : Type}.
Local Abbreviation val := (option V).

Record state := {
  _stores : list Handle;
  cod_stores : gmap Handle (BufferedStore.state V)
}.

Definition with_stores (l : list Handle) (m : state) : state :=
  {| _stores := l; cod_stores := cod_stores m |}.

Definition with_cod_stores (c : gmap Handle (BufferedStore.state V))
    (m : state) : state :=
  {| _stores := _stores m; cod_stores := c |}.

(** [scope_idx] is [self.scope.idx], the offset map of the scope object,
    whose keys are the destinations; [None] if the scope has no [idx]. *)
Context (zero : V) (drv : driver V Med) (idx : Key -> gmap Handle Z)
        (content_store_of : Handle -> Handle)
        (scope_idx : option (gmap Handle Z)).

Local Abbreviation W := (state * ext V Med)%type.

Definition self : M W state := gets fst.
Definition set_stores (l : list Handle) : M W unit :=
  modify (fun w => (with_stores l (fst w), snd w)).
Definition set_cod_stores (c : gmap Handle (BufferedStore.state V))
    : M W unit :=
  modify (fun w => (with_cod_stores c (fst w), snd w)).

(** A method of [self.cod_stores[s]]. *)
Definition on_cod_store {A} (s : Handle)
    (m : M (BufferedStore.state V * ext V Med) A) : M W A :=
  fun w =>
    match cod_stores (fst w) !! s with
    | Some b =>
        zoom (fun _ => b)
             (fun b' t => with_cod_stores (<[s := b']> (cod_stores t)) t) m w
    | None => (Raise KeyError, w)
    end.

(** The property [stores]. *)
Definition stores : M W (list Handle) :=
  match scope_idx with
  | Some sidx =>
      m <- self ;;
      (if decide (size sidx ≠ length (_stores m))
       then set_stores (map_to_list sidx).*1 else ret tt) ;;;
      m <- self ;;
      ret (_stores m)
  | None => ret []
  end.

Definition add_nod_store (store : Handle) : M W unit :=
  m <- self ;;
  set_cod_stores
    (<[store := BufferedStore.__init__ content_store_of store]> (cod_stores m)).

Definition update_nod_stores : M W unit :=
  m <- self ;;
  dict_for (fun w => size (cod_stores (fst w))) (size (cod_stores m))
    (map_to_list (cod_stores m)).*1
    (fun store _ =>
       ss <- stores ;;
       if decide (store ∉ ss) then
         m <- self ;; set_cod_stores (delete store (cod_stores m))
       else ret tt) tt ;;;
  ss <- stores ;;
  foldM (fun store _ =>
           m <- self ;;
           if decide (¬ is_Some (cod_stores m !! store))
           then add_nod_store store else ret tt) ss tt.

(** [if len(self.stores) != len(self.cod_stores): self.update_nod_stores()],
    the first statement of every public method. *)
Definition reconcile : M W unit :=
  ss <- stores ;;
  m <- self ;;
  if decide (length ss ≠ size (cod_stores m)) then update_nod_stores
  else ret tt.

Definition __init__ : M W unit :=
  set_stores [] ;;; set_cod_stores ∅ ;;; update_nod_stores.

Definition sync : M W unit :=
  reconcile ;;;
  m <- self ;;
  if decide (size (cod_stores m) = 0) then ret tt
  else
    foldM (fun s _ => on_cod_store s (BufferedStore.sync drv idx))
          (map_to_list (cod_stores m)).*1 tt.

Definition _add_new (items : list Key) (values : list val) : M W unit :=
  reconcile ;;;
  m <- self ;;
  dict_for (fun w => size (cod_stores (fst w))) (size (cod_stores m))
    (map_to_list (cod_stores m)).*1
    (fun s _ => on_cod_store s (BufferedStore._add_new idx items values)) tt.

(** The first loop of [_get_list]: [results_list[s] = self.cod_stores[s][items]]. *)
Definition query_all (items : list Key) : M W (gmap Handle (list val)) :=
  m <- self ;;
  dict_for (fun w => size (cod_stores (fst w))) (size (cod_stores m))
    (map_to_list (cod_stores m)).*1
    (fun s results_list =>
       r <- on_cod_store s (BufferedStore.__getitem__ zero drv idx items) ;;
       ret (<[s := r]> results_list)) ∅.

(** The destination whose results are [r] has a value at position [i]. *)
Definition resolved (r : list val) (i : nat) : Prop :=
  exists v, r !! i = Some (Some v).

(** [[None if item is None or result is None else item
      for item, result in zip(output, results)]] *)
Definition merge (output results : list val) : list val :=
  zip_with (fun item result =>
              match item, result with
              | Some _, Some _ => item
              | _, _ => None
              end) output results.

(** The second loop of [_get_list], over the entries of [results_list];
    [output] is [None] before the first entry and a list after it, so that
    [first] holds exactly while [output] is [None]. *)
Definition reduce (entries : list (Handle * list val)) : option (list val) :=
  foldl (fun output sr =>
           match output with
           | None => Some (snd sr)
           | Some out => Some (merge out (snd sr))
           end) None entries.

(** [return output]: [output] is a list, as [results_list] is not empty
    here; the [None] it would otherwise be is not a sequence, a [TypeError]
    in the caller.  The entries of [results_list] are taken in the order of
    the map, which stands for the order of a Python dict: it decides which
    destination's value comes back when all have one and they differ. *)
Definition _get_list (items : list Key) : M W (list val) :=
  reconcile ;;;
  m <- self ;;
  if decide (size (cod_stores m) = 0) then ret (times None (length items))
  else
    results_list <- query_all items ;;
    match reduce (map_to_list results_list) with
    | Some output => ret output
    | None => raise TypeError
    end.
End Methods.
Arguments state : clear implicits.
End MultiStore.

(** ** Concrete objects

    Values are integers here; they stand for the floats of the source, which
    the code only moves around. *)

Module Demo.
Import Heap Medium.

Definition key7 : Key := 7%positive.
Definition key8 : Key := 8%positive.
Definition key9 : Key := 9%positive.

(** *** Chain links *)

Definition plain (d : gmap Key (option Z)) : obj Z :=
  {| o_cls := CChainDict; o_dict := d; post := None; _eval := None;
     fnc_uses_lists := true |}.

Definition link_a : loc := 1%positive.
Definition link_b : loc := 2%positive.
Definition link_c : loc := 3%positive.

Definition obj_a : obj Z := plain {[ key7 := Some 1%Z ]}.
Definition obj_b : obj Z := plain ∅.
Definition obj_c : obj Z := plain {[ key8 := Some 2%Z ]}.

(** Three links, not yet chained. *)
Definition three_links : world Z :=
  {| heap := {[ link_a := obj_a; link_b := obj_b; link_c := obj_c ]};
     trace := [] |}.

(** [Function(fnc)] with a list-mode [fnc] that maps a key to ten times its
    number. *)
Definition tenfold (k : Key) : option Z := Some (10 * Z.pos k)%Z.

Definition obj_fn : obj Z :=
  {| o_cls := CFunction; o_dict := ∅; post := None;
     _eval := Some {| call_list := map tenfold; call_item := tenfold |};
     fnc_uses_lists := true |}.

Definition obj_cache : obj Z :=
  {| o_cls := CChainDict; o_dict := {[ key7 := Some 1%Z ]};
     post := Some link_a; _eval := None; fnc_uses_lists := true |}.

Definition obj_multi : obj Z :=
  {| o_cls := CExpandMulti; o_dict := ∅; post := Some link_b; _eval := None;
     fnc_uses_lists := true |}.

(** [ExpandMulti] in front of a [ChainDict] in front of a [Function]. *)
Definition full_chain : world Z :=
  {| heap := {[ link_a := obj_fn; link_b := obj_cache; link_c := obj_multi ]};
     trace := [] |}.

(** *** A medium

    Values are kept by handle and offset; both operations refuse offsets that
    are not in ascending order. *)

Definition demo_med : Type := gmap (Handle * Z) (option Z).

Fixpoint ascending (l : list Z) : bool :=
  match l with
  | x :: ((y :: _) as l') => (x <=? y)%Z && ascending l'
  | _ => true
  end.

Definition demo_drv : driver Z demo_med :=
  {| drv_get_list_value := fun h offsets m =>
       if ascending offsets
       then (Ok (map (fun off => default None (m !! (h, off))) offsets), m)
       else (Raise IOError, m);
     drv_set_list_value := fun h offsets values m =>
       if ascending offsets
       then (Ok tt, foldl (fun m p => <[(h, fst p) := snd p]> m) m
                          (zip offsets values))
       else (Raise IOError, m) |}.

Definition handle1 : Handle := 10%positive.
Definition handle2 : Handle := 20%positive.

(** [store.storage._obj_store[store.key_class]] is another object than
    [store]. *)
Definition content_of (h : Handle) : Handle := (h + 100)%positive.

Definition store1 : Store.state Z := Store.__init__ content_of handle1.

(** The medium of [handle1] holds ten times the offset at offsets 1, 3, 5. *)
Definition med135 : demo_med :=
  {[ (handle1, 1%Z) := Some 10%Z; (handle1, 3%Z) := Some 30%Z;
     (handle1, 5%Z) := Some 50%Z ]}.

Definition ext135 : ext Z demo_med := {| med := med135; calls := [] |}.

(** No key has an offset anywhere. *)
Definition no_offsets (k : Key) : gmap Handle Z := ∅.

(** [key7] is at offset 5 and [key8] at offset 1 of the content store of
    [handle1]; [key9] has an offset for [handle1] itself only. *)
Definition content_offsets (k : Key) : gmap Handle Z :=
  if decide (k = key7) then {[ content_of handle1 := 5%Z ]}
  else if decide (k = key8) then {[ content_of handle1 := 1%Z ]}
  else if decide (k = key9) then {[ handle1 := 3%Z ]}
  else ∅.

Definition store1_filled : Store.state Z :=
  Store.with_data {[ key7 := Some 70%Z; key8 := Some 80%Z; key9 := Some 90%Z ]}
                  store1.

Definition buffered1 : BufferedStore.state Z :=
  BufferedStore.__init__ content_of handle1.

(** *** A fan-out store over two destinations *)

(** [key7] is at offset 0 of both destinations. *)
Definition both_offsets (k : Key) : gmap Handle Z :=
  if decide (k = key7) then {[ handle1 := 0%Z; handle2 := 0%Z ]} else ∅.

Definition scope_both : gmap Handle Z := {[ handle1 := 0%Z; handle2 := 0%Z ]}.
Definition scope_first : gmap Handle Z := {[ handle1 := 0%Z ]}.

(** The first destination has a value for [key7], the second has not. *)
Definition med_one : demo_med := {[ (handle1, 0%Z) := Some 1%Z ]}.
Definition med_two : demo_med :=
  {[ (handle1, 0%Z) := Some 1%Z; (handle2, 0%Z) := Some 1%Z ]}.

Definition ext_one : ext Z demo_med := {| med := med_one; calls := [] |}.
Definition ext_two : ext Z demo_med := {| med := med_two; calls := [] |}.

(** The state [MultiStore.__init__] leaves when the scope has both
    destinations. *)
Definition fan_both : MultiStore.state Z :=
  fst (snd (MultiStore.__init__ content_of (Some scope_both)
              ({| MultiStore._stores := []; MultiStore.cod_stores := ∅ |},
               ext_one))).
End Demo.

(** ** The rest of the chain protocol *)

Module Assign.
Import Heap.
Section Dispatch.
Context {V : Type}.
Local Abbreviation val := (option V).

(** [link[items] = values] with a list of keys.  [ChainDict.__setitem__]
    sends a list to [_set_list], which is what [ChainDict._add_new] runs on
    [self]; [Function] inherits it.  [Wrap.__setitem__] and
    [ExpandMulti.__setitem__] are [self.post[key] = value], and an item
    assignment to [None] is a [TypeError]. *)
Fixpoint setitem (fuel : nat) (self : loc) (items : list Key)
    (values : list val) : M (world V) unit :=
  match fuel with
  | 0 => stuck
  | S fuel' =>
      o <- deref self ;;
      match o_cls o with
      | CChainDict | CFunction => ChainDict._add_new self items values
      | CWrap | CExpandMulti =>
          match post o with
          | Some p => setitem fuel' p items values
          | None => raise TypeError
          end
      end
  end.

(** The links a subscript of [l] can reach in at most [n] steps. *)
Fixpoint chain_locs (h : gmap loc (obj V)) (n : nat) (l : loc) : list loc :=
  match n with
  | 0 => []
  | S n' =>
      l :: match h !! l with
           | Some o =>
               match post o with
               | Some p => chain_locs h n' p
               | None => []
               end
           | None => []
           end
  end.

(** The link [i] steps of [post] behind [l], if the chain is that long. *)
Fixpoint hop (h : gmap loc (obj V)) (i : nat) (l : loc) : option loc :=
  match i with
  | 0 => Some l
  | S i' =>
      match h !! l with
      | Some o =>
          match post o with
          | Some p => hop h i' p
          | None => None
          end
      | None => None
      end
  end.

(** The last value given for [k] in a batch of pairs that is not [None]. *)
Fixpoint last_value (k : Key) (l : list (Key * val)) : val :=
  match l with
  | [] => None
  | (k', x) :: l' =>
      match last_value k l' with
      | Some v => Some v
      | None => if decide (k' = k) then x else None
      end
  end.

(** How many [None] a list of values has. *)
Definition count_None (l : list val) : nat :=
  length (filter (fun x => x = None) l).
End Dispatch.
End Assign.

(** ** [ExpandSingle] *)

Module ExpandSingle.
Section Methods.
Context {V W : Type}.
Local Abbreviation val := (option V).

(** What [ExpandSingle] is subscripted with: one key (an object without
    [__iter__], or a [DelayedLoaderProxy]) or a batch of keys; and what it
    answers: one value or a list of values. *)
Inductive subscript := Single (k : Key) | Batch (items : list Key).
Inductive answer := Value (v : val) | Values (vs : list val).

(** [self.post[[items]][0]]; the subscript [[0]] of an empty list is an
    [IndexError]. *)
Definition first_of (post : option (list Key -> M W (list val))) (k : Key)
    : M W answer :=
  match post with
  | None => raise TypeError
  | Some post_getitem =>
      r <- post_getitem [k] ;;
      match r with
      | [] => raise IndexError
      | x :: _ => ret (Value x)
      end
  end.

Definition __getitem__ (post : option (list Key -> M W (list val)))
    (items : subscript) : M W answer :=
  match items with
  | Single k => first_of post k
  | Batch l =>
      match post with
      | None => raise TypeError
      | Some post_getitem => r <- post_getitem l ;; ret (Values r)
      end
  end.
End Methods.
Arguments answer : clear implicits.
End ExpandSingle.

(** ** An invariant of [BufferedStore] *)

Module Buffered.
Section Invariant.
Context {V : Type}.

(** Every key of the write buffer of [self._store] has a value in
    [self._cache]. *)
Definition covered (b : BufferedStore.state V) : Prop :=
  forall k, is_Some (Store.data (BufferedStore._store b) !! k) ->
            exists v, BufferedStore._cache b !! k = Some (Some v).
End Invariant.
End Buffered.

(** ** Well-formed chains, with the condition on the list functions only *)

Module WellFormed.
Import Heap.
Section Chains.
Context {V : Type}.


End Chains.
End WellFormed.

(** ** More objects to run the model on *)

Module DemoMore.
Import Heap Medium Demo.

(** The three keys are at offsets 5, 1 and 3 of [handle1] itself. *)
Definition load_offsets (k : Key) : gmap Handle Z :=
  if decide (k = key7) then {[ handle1 := 5%Z ]}
  else if decide (k = key8) then {[ handle1 := 1%Z ]}
  else if decide (k = key9) then {[ handle1 := 3%Z ]}
  else ∅.

(** A store that flushes as soon as its buffer has more than one entry. *)
Definition store_limit1 : Store.state Z :=
  {| Store.store := handle1; Store.content_store := content_of handle1;
     Store.data := ∅; Store.max_save_buffer_size := Some 1%Z |}.

(** A buffered store after [key7] was filled back with 70. *)
Definition buffered_filled : BufferedStore.state Z :=
  fst (snd (BufferedStore._add_new content_offsets [key7] [Some 70%Z]
              (buffered1, ext135))).

(** The state [MultiStore.__init__] leaves when the scope has the first
    destination only. *)
Definition fan_first : MultiStore.state Z :=
  fst (snd (MultiStore.__init__ content_of (Some scope_first)
              ({| MultiStore._stores := []; MultiStore.cod_stores := ∅ |},
               ext_one))).

(** [key7] is at offset 0 of the content stores of both destinations. *)
Definition fan_offsets (k : Key) : gmap Handle Z :=
  if decide (k = key7)
  then {[ content_of handle1 := 0%Z; content_of handle2 := 0%Z ]} else ∅.

(** The fan-out store of [Demo.fan_both] after [key7] was filled back with
    1. *)
Definition fan_filled : MultiStore.state Z :=
  fst (snd (MultiStore._add_new fan_offsets content_of (Some scope_both)
              [key7] [Some 1%Z] (fan_both, ext_one))).

End DemoMore.

(** * Properties *)

Module PyFacts.
Section Sorting.
Context {A : Type} (key : A -> Z).

Lemma sorted_insert_perm (x : A) (l : list A) :
  sorted_insert key x l ≡ₚ x :: l.
Proof.
  induction l as [|y l IH]; [done|]. cbn.
  destruct (key x <=? key y)%Z; [done|].
  rewrite IH. apply Permutation_swap.
Qed.

Lemma sorted_perm (l : list A) : sorted key l ≡ₚ l.
Proof.
  induction l as [|x l IH]; [done|]. cbn.
  rewrite sorted_insert_perm. by rewrite IH.
Qed.


Lemma sorted_insert_Sorted (x : A) (l : list A) :
  Sorted (key_le key) l -> Sorted (key_le key) (sorted_insert key x l).
Proof.
  induction l as [|y l IH]; intros Hs.
  - cbn. by repeat constructor.
  - cbn. destruct (key x <=? key y)%Z eqn:Hxy.
    + constructor; [done|]. constructor. unfold key_le. lia.
    + apply Sorted_inv in Hs as [Hs Hhd]. constructor; [by apply IH|].
      destruct l as [|z l]; cbn.
      * constructor. unfold key_le. lia.
      * destruct (key x <=? key z)%Z.
        -- constructor. unfold key_le. lia.
        -- constructor. by apply HdRel_inv in Hhd.
Qed.

Lemma sorted_Sorted (l : list A) : Sorted (key_le key) (sorted key l).
Proof.
  induction l as [|x l IH]; [constructor|]. cbn. by apply sorted_insert_Sorted.
Qed.

Lemma Sorted_fmap_key (l : list A) :
  Sorted (key_le key) l -> Sorted Z.le (key <$> l).
Proof.
  induction 1 as [|x l Hs IH Hhd]; [constructor|].
  rewrite fmap_cons. constructor; [done|].
  destruct Hhd; rewrite ?fmap_cons; by constructor.
Qed.
End Sorting.

Section Enumerate.
Context {A : Type}.

Lemma enumerate_lookup (l : list A) (i : nat) :
  enumerate l !! i = pair i <$> l !! i.
Proof. apply list_lookup_imap. Qed.

Lemma elem_of_enumerate (l : list A) (i : nat) (x : A) :
  (i, x) ∈ enumerate l <-> l !! i = Some x.
Proof.
  unfold enumerate. rewrite elem_of_lookup_imap. split.
  - intros (j & y & Heq & Hj). by injection Heq as -> ->.
  - intros Hi. by exists i, x.
Qed.

Lemma enumerate_fst (l : list A) : (enumerate l).*1 = seq 0 (length l).
Proof.
  unfold enumerate. rewrite fmap_imap.
  rewrite (imap_ext _ (fun n _ => id n)); [|done].
  rewrite (imap_seq_0 l id). apply list_fmap_id.
Qed.

Lemma enumerate_snd (l : list A) : (enumerate l).*2 = l.
Proof.
  unfold enumerate. rewrite fmap_imap.
  rewrite (imap_ext _ (const id)); [|done].
  rewrite imap_const. apply list_fmap_id.
Qed.
End Enumerate.
End PyFacts.

Module StoreFacts.
Import Medium PyFacts.
Section Facts.
Context {V Med : Type}.
Local Abbreviation val := (option V).
Context (zero : V) (drv : driver V Med) (idx : Key -> gmap Handle Z).

Lemma scatter_spec (vs : list val) (pis : list (nat * nat)) :
  forall ret0 : list val,
  NoDup pis.*2 ->
  (forall pos i, (pos, i) ∈ pis -> is_Some (vs !! pos) /\ i < length ret0) ->
  exists ret,
    Store.scatter vs pis ret0 = Ok ret
    /\ length ret = length ret0
    /\ (forall pos i, (pos, i) ∈ pis -> ret !! i = vs !! pos)
    /\ (forall j, j ∉ pis.*2 -> ret !! j = ret0 !! j).
Proof.
  induction pis as [|[pos i] pis IH]; intros ret0 Hnd Hin.
  - exists ret0. repeat split; try done.
    intros pos i Hin'. by apply elem_of_nil in Hin'.
  - rewrite fmap_cons in Hnd. apply NoDup_cons in Hnd as [Hi Hnd].
    destruct (Hin pos i) as [[v Hv] Hlt]; [apply list_elem_of_here|].
    cbn [Store.scatter]. rewrite Hv. rewrite decide_True by done.
    destruct (IH (<[i := v]> ret0) Hnd) as (ret & Hrun & Hlen & Hset & Hkeep).
    { intros pos' i' Hin'. rewrite length_insert. apply Hin.
      by apply list_elem_of_further. }
    exists ret. split; [done|]. split; [by rewrite Hlen, length_insert|].
    split.
    + intros pos' i' Hin'. apply elem_of_cons in Hin' as [Heq|Hin'].
      * injection Heq as -> ->. rewrite (Hkeep i Hi).
        rewrite Hv. by apply list_lookup_insert_eq.
      * by apply Hset.
    + intros j Hj. rewrite fmap_cons in Hj. apply not_elem_of_cons in Hj as [Hne Hj].
      rewrite (Hkeep j Hj). by apply list_lookup_insert_ne.
Qed.

Lemma load_list_run (s : Store.state V) (e : ext V Med) (keys : list Z)
    (r : result (list val)) (m' : Med) :
  0 < length keys ->
  drv_get_list_value drv (Store.store s)
     (sorted snd (enumerate keys)).*2 (med e) = (r, m') ->
  Store._load_list zero drv keys (s, e)
  = (match r with
     | Ok values_sorted =>
         Store.scatter values_sorted
           (enumerate (sorted snd (enumerate keys)).*1)
           (times (Some zero) (length keys))
     | Raise x => Raise x
     | Stuck => Stuck
     end,
     (s, {| med := m';
            calls := calls e ++ [GetListValue (Store.store s)
                                   (sorted snd (enumerate keys)).*2] |})).
Proof.
  intros Hlen Hdrv. unfold Store._load_list. rewrite decide_True by done.
  cbv zeta. unfold bind at 1, Store.self, gets. cbn [fst].
  unfold bind, get_list_value. cbn [fst snd]. rewrite Hdrv.
  by destruct r.
Qed.

Lemma sorted_enumerate_facts (keys : list Z) :
  let keys_sorted := sorted snd (enumerate keys) in
  Sorted Z.le keys_sorted.*2
  /\ keys_sorted.*2 ≡ₚ keys
  /\ keys_sorted.*1 ≡ₚ seq 0 (length keys)
  /\ (forall pos i off, keys_sorted !! pos = Some (i, off) -> keys !! i = Some off).
Proof.
  cbv zeta. pose proof (sorted_perm snd (enumerate keys)) as Hperm.
  split; [apply Sorted_fmap_key, sorted_Sorted|].
  split; [by rewrite Hperm, enumerate_snd|].
  split; [by rewrite Hperm, enumerate_fst|].
  intros pos i off Hpos. apply elem_of_enumerate. rewrite <- Hperm.
  by apply list_elem_of_lookup_2 in Hpos.
Qed.

(** C5.  A batch load of a non-empty list of offsets makes one call to the
    medium, with the offsets sorted in ascending order (a permutation of the
    request).  When the medium returns one value per offset, the value it
    returned at sorted position [pos] ends at the request position [i] the
    offset came from; so a medium that answers offset by offset yields the
    values in the order of the request. *)
Theorem load_list_sorted_then_remapped (s : Store.state V) (e : ext V Med)
    (keys : list Z) (values_sorted : list val) (m' : Med) :
  0 < length keys ->
  drv_get_list_value drv (Store.store s)
     (sorted snd (enumerate keys)).*2 (med e) = (Ok values_sorted, m') ->
  length values_sorted = length keys ->
  let keys_sorted := sorted snd (enumerate keys) in
  Sorted Z.le keys_sorted.*2
  /\ keys_sorted.*2 ≡ₚ keys
  /\ exists ret,
       Store._load_list zero drv keys (s, e)
       = (Ok ret,
          (s, {| med := m';
                 calls := calls e
                            ++ [GetListValue (Store.store s) keys_sorted.*2] |}))
       /\ length ret = length keys
       /\ (forall pos i off,
             keys_sorted !! pos = Some (i, off) ->
             keys !! i = Some off /\ ret !! i = values_sorted !! pos)
       /\ (forall f, values_sorted = f <$> keys_sorted.*2 -> ret = f <$> keys).
Proof.
  intros Hlen Hdrv Hvs. cbv zeta.
  destruct (sorted_enumerate_facts keys) as (Hsorted & Hperm2 & Hperm1 & Hpairs).
  split; [done|]. split; [done|].
  set (keys_sorted := sorted snd (enumerate keys)) in *.
  assert (length keys_sorted = length keys) as Hlks.
  { rewrite <- (length_fmap snd keys_sorted). by rewrite Hperm2. }
  destruct (scatter_spec values_sorted (enumerate keys_sorted.*1)
              (times (Some zero) (length keys)))
    as (ret & Hrun & Hlret & Hset & _).
  { rewrite enumerate_snd, Hperm1. apply NoDup_seq. }
  { intros pos i Hin. apply elem_of_enumerate in Hin. split.
    - apply lookup_lt_is_Some. rewrite Hvs, <- Hlks, <- (length_fmap fst keys_sorted).
      by apply lookup_lt_Some in Hin.
    - unfold times. rewrite length_replicate.
      apply list_elem_of_lookup_2 in Hin. rewrite Hperm1 in Hin.
      apply elem_of_seq in Hin. lia. }
  assert (forall pos i off, keys_sorted !! pos = Some (i, off) ->
            ret !! i = values_sorted !! pos) as Hremap.
  { intros pos i off Hpos. apply Hset. apply elem_of_enumerate.
    by rewrite list_lookup_fmap, Hpos. }
  exists ret. split.
  { rewrite (load_list_run s e keys (Ok values_sorted) m' Hlen Hdrv).
    cbv beta iota. fold keys_sorted. by rewrite Hrun. }
  split; [by rewrite Hlret; unfold times; rewrite length_replicate|].
  split; [intros pos i off Hpos; split; [by eapply Hpairs | by eapply Hremap]|].
  intros f ->. apply list_eq. intros i.
  destruct (decide (i < length keys)) as [Hi|Hi].
  - assert (i ∈ keys_sorted.*1) as Hin.
    { rewrite Hperm1. apply elem_of_seq. lia. }
    apply list_elem_of_lookup_1 in Hin as [pos Hpos].
    rewrite list_lookup_fmap in Hpos.
    destruct (keys_sorted !! pos) as [[i' off]|] eqn:Hks; [|done].
    cbn in Hpos. injection Hpos as ->.
    rewrite (Hremap pos i off Hks), !list_lookup_fmap, Hks.
    by rewrite (Hpairs pos i off Hks).
  - rewrite !lookup_ge_None_2; [done| |].
    + rewrite length_fmap. lia.
    + rewrite Hlret. unfold times. rewrite length_replicate. lia.
Qed.

Lemma lookup_Some_size_pos (m : gmap Handle Z) (h : Handle) (z : Z) :
  m !! h = Some z -> 0 < size m.
Proof.
  intros Hm. destruct (decide (size m = 0)) as [Hz|Hz]; [|lia].
  apply map_size_empty_iff in Hz. subst m. by rewrite lookup_empty in Hm.
Qed.

Lemma elem_of_storable (s : Store.state V) (off : Z) (v : val) :
  (off, v) ∈ Store.storable idx s
  <-> exists k, Store.data s !! k = Some v
             /\ idx k !! Store.content_store s = Some off.
Proof.
  unfold Store.storable. rewrite list_elem_of_omap. split.
  - intros ([k v'] & Hin & Hf). apply elem_of_map_to_list in Hin.
    cbn [fst snd] in Hf. case_decide; [|done].
    destruct (idx k !! Store.content_store s) as [off'|] eqn:Hk; [|done].
    injection Hf as -> ->. by exists k.
  - intros (k & Hk & Hoff). exists (k, v). split; [by apply elem_of_map_to_list|].
    cbn [fst snd]. rewrite decide_True by by eapply lookup_Some_size_pos.
    by rewrite Hoff.
Qed.

(** C8.  [sync] takes the buffered entries whose key has an offset for the
    content store, sorts them by offset, makes one [set_list_value] call with
    the sorted offsets and their values, and empties the buffer, the entries
    without an offset included; with nothing to flush it makes no call and
    still empties the buffer.  The write is assumed to return normally. *)
Theorem sync_writes_sorted_then_clears (s : Store.state V) (e : ext V Med)
    (m' : Med) :
  let flushable := Store.storable idx s in
  let flushed := sorted fst flushable in
  match flushable with
  | [] => m' = med e
  | _ :: _ =>
      drv_set_list_value drv (Store.store s) flushed.*1 flushed.*2 (med e)
      = (Ok tt, m')
  end ->
  Store.sync drv idx (s, e)
  = (Ok tt,
     (Store.with_data ∅ s,
      {| med := m';
         calls := calls e
                    ++ match flushable with
                       | [] => []
                       | _ :: _ =>
                           [SetListValue (Store.store s) flushed.*1 flushed.*2]
                       end |}))
  /\ Sorted Z.le flushed.*1
  /\ flushed ≡ₚ flushable
  /\ (forall off v,
        (off, v) ∈ flushable
        <-> exists k, Store.data s !! k = Some v
                   /\ idx k !! Store.content_store s = Some off).
Proof.
  cbv zeta. intros Hdrv.
  split; [|split; [apply Sorted_fmap_key, sorted_Sorted|
                   split; [apply sorted_perm|apply elem_of_storable]]].
  unfold Store.sync, bind at 1, Store.self, gets. cbn [fst].
  destruct (Store.storable idx s) as [|p st] eqn:Hst.
  - rewrite decide_False by (cbn; lia). subst m'.
    unfold Store.set_data, modify. cbn [fst snd]. rewrite app_nil_r.
    by destruct e.
  - rewrite decide_True by (cbn; lia).
    unfold bind, set_list_value. cbn [fst snd]. rewrite Hdrv. done.
Qed.

Lemma buffered_unless_later (d : gmap Key val) (l : list (Key * val))
    (k : Key) :
  k ∉ l.*1 ->
  foldl (fun d p => <[fst p := snd p]> d) d l !! k = d !! k.
Proof.
  revert d. induction l as [|[k' v'] l IH]; intros d Hk; [done|].
  rewrite fmap_cons in Hk. apply not_elem_of_cons in Hk as [Hne Hk].
  cbn [foldl fst snd]. rewrite IH by done. by rewrite lookup_insert_ne.
Qed.

Lemma add_new_run (s : Store.state V) (e : ext V Med) (items : list Key)
    (values : list val) :
  Store.max_save_buffer_size s = None ->
  Store._add_new drv idx items values (s, e)
  = (Ok tt,
     (Store.with_data (foldl (fun d p => <[fst p := snd p]> d) (Store.data s)
                             (zip items values)) s, e)).
Proof.
  intros Hmax. unfold Store._add_new, bind at 1, Store.self, gets. cbn [fst].
  unfold bind at 1, Store.set_data, modify. cbn [fst snd].
  unfold bind. cbn [fst Store.with_data Store.max_save_buffer_size].
  by rewrite Hmax.
Qed.

Lemma sync_run (s : Store.state V) (e : ext V Med) (m' : Med) :
  let flushable := Store.storable idx s in
  let flushed := sorted fst flushable in
  match flushable with
  | [] => m' = med e
  | _ :: _ =>
      drv_set_list_value drv (Store.store s) flushed.*1 flushed.*2 (med e)
      = (Ok tt, m')
  end ->
  Store.sync drv idx (s, e)
  = (Ok tt,
     (Store.with_data ∅ s,
      {| med := m';
         calls := calls e
                    ++ match flushable with
                       | [] => []
                       | _ :: _ =>
                           [SetListValue (Store.store s) flushed.*1 flushed.*2]
                       end |})).
Proof.
  cbv zeta. intros Hdrv.
  unfold Store.sync, bind at 1, Store.self, gets. cbn [fst].
  destruct (Store.storable idx s) as [|p st] eqn:Hst.
  - rewrite decide_False by (cbn; lia). subst m'.
    unfold Store.set_data, modify. cbn [fst snd]. rewrite app_nil_r.
    by destruct e.
  - rewrite decide_True by (cbn; lia).
    unfold bind, set_list_value. cbn [fst snd]. rewrite Hdrv. done.
Qed.

Lemma add_new_steps (s : Store.state V) (e : ext V Med) (items : list Key)
    (values : list val) :
  let s1 := Store.with_data (foldl (fun d p => <[fst p := snd p]> d)
                                   (Store.data s) (zip items values)) s in
  Store._add_new drv idx items values (s, e)
  = match Store.max_save_buffer_size s with
    | Some limit =>
        if decide (limit < Z.of_nat (size (Store.data s1)))%Z
        then Store.sync drv idx (s1, e)
        else (Ok tt, (s1, e))
    | None => (Ok tt, (s1, e))
    end.
Proof.
  cbv zeta. unfold Store._add_new, bind at 1, Store.self, gets. cbn [fst].
  unfold bind at 1, Store.set_data, modify. cbn [fst snd].
  unfold bind at 1. cbn [fst Store.with_data Store.max_save_buffer_size].
  destruct (Store.max_save_buffer_size s) as [limit|]; [|done].
  cbn [Store.data]. by case_decide.
Qed.

(** C2, as the code has it.  [Store._add_new] puts every pair it is given
    into the write buffer, whether or not the key has an offset: a key of
    the batch holds the last value the batch gives for it, and the other
    keys keep their entries.  Without a [max_save_buffer_size], or with a
    buffer within it after the insertion, the call ends there.  With a
    buffer over it, the call goes on as [sync] on that buffer: the entries
    whose key has an offset for the content store are written in one call,
    in ascending order of these offsets, and the whole buffer is emptied, so
    that the values just inserted for keys without such an offset are
    discarded in the same call.  The write is assumed to return normally. *)
Theorem add_new_buffers_whatever_the_offset (s : Store.state V)
    (e : ext V Med) (items : list Key) (values : list val) :
  let buffer := foldl (fun d p => <[fst p := snd p]> d) (Store.data s)
                      (zip items values) in
  let s1 := Store.with_data buffer s in
  let flushable := Store.storable idx s1 in
  let flushed := sorted fst flushable in
  (forall before k x after,
     zip items values = before ++ (k, x) :: after ->
     k ∉ after.*1 ->
     buffer !! k = Some x)
  /\ (forall k, k ∉ (zip items values).*1 -> buffer !! k = Store.data s !! k)
  /\ ((forall limit, Store.max_save_buffer_size s = Some limit ->
                     (Z.of_nat (size buffer) <= limit)%Z) ->
      Store._add_new drv idx items values (s, e) = (Ok tt, (s1, e)))
  /\ (forall limit m',
        Store.max_save_buffer_size s = Some limit ->
        (limit < Z.of_nat (size buffer))%Z ->
        match flushable with
        | [] => m' = med e
        | _ :: _ =>
            drv_set_list_value drv (Store.store s) flushed.*1 flushed.*2 (med e)
            = (Ok tt, m')
        end ->
        Store._add_new drv idx items values (s, e)
        = (Ok tt,
           (Store.with_data ∅ s,
            {| med := m';
               calls := calls e
                          ++ match flushable with
                             | [] => []
                             | _ :: _ =>
                                 [SetListValue (Store.store s)
                                    flushed.*1 flushed.*2]
                             end |}))
        /\ Sorted Z.le flushed.*1
        /\ flushed ≡ₚ flushable
        /\ (forall off v,
              (off, v) ∈ flushable
              <-> exists k, buffer !! k = Some v
                         /\ idx k !! Store.content_store s = Some off)).
Proof.
  cbv zeta. split; [|split; [|split]].
  - intros before k x after Hzip Hlast. rewrite Hzip, foldl_app.
    cbn [foldl fst snd]. rewrite buffered_unless_later by done.
    apply lookup_insert_eq.
  - intros k Hk. by apply buffered_unless_later.
  - intros Hwithin. rewrite add_new_steps. cbv zeta.
    destruct (Store.max_save_buffer_size s) as [limit|] eqn:Hmax; [|done].
    rewrite decide_False; [done|]. cbn [Store.data Store.with_data].
    specialize (Hwithin limit eq_refl). lia.
  - intros limit m' Hmax Hover Hdrv. split.
    + rewrite add_new_steps. cbv zeta. rewrite Hmax.
      rewrite decide_True by done.
      exact (sync_run (Store.with_data _ s) e m' Hdrv).
    + split; [apply Sorted_fmap_key, sorted_Sorted|].
      split; [apply sorted_perm|]. intros off v.
      exact (elem_of_storable (Store.with_data _ s) off v).
Qed.

Lemma getitem_buffered_raises (s : Store.state V) (e : ext V Med)
    (post : option (list Key -> M (Store.state V * ext V Med) (list val)))
    (k : Key) :
  is_Some (Store.data s !! k) ->
  Store.__getitem__ zero drv idx post [k] (s, e) = (Raise TypeError, (s, e)).
Proof.
  intros Hk. unfold Store.__getitem__, ChainDict.__getitem__, bind at 1.
  unfold Store._get_list, bind at 1, Store._split_list_dict.
  unfold bind at 1, Store.self, gets. cbn [fst mapM].
  rewrite decide_True by done. done.
Qed.

(** C3, the code at the failing input.  [Store._add_new] with the value
    [None] creates an entry for the key in the write buffer, and the next get
    for the key does not answer [None]: it raises. *)
Theorem add_new_buffers_None (s : Store.state V) (e : ext V Med) (k : Key) :
  Store.max_save_buffer_size s = None ->
  exists s',
    Store._add_new drv idx [k] [None] (s, e) = (Ok tt, (s', e))
    /\ Store.data s' !! k = Some None
    /\ exists x w',
         Store.__getitem__ zero drv idx None [k] (s', e) = (Raise x, w').
Proof.
  intros Hmax. eexists. split; [by apply add_new_run|].
  split; [cbn; apply lookup_insert_eq|].
  eexists _, _. apply getitem_buffered_raises.
  cbn. rewrite lookup_insert_eq. by eexists.
Qed.


Lemma storable_singleton (s : Store.state V) (k : Key) (v : val) :
  Store.storable idx (Store.with_data {[k := v]} s)
  = match idx k !! Store.content_store s with
    | Some off => [(off, v)]
    | None => []
    end.
Proof.
  unfold Store.storable. cbn [Store.data Store.with_data Store.content_store].
  rewrite map_to_list_singleton. cbn [omap list_omap fst snd].
  destruct (idx k !! Store.content_store s) as [off|] eqn:Hoff.
  - rewrite decide_True by by eapply lookup_Some_size_pos. done.
  - by case_decide.
Qed.

Lemma buffered_add_one_run (b : BufferedStore.state V) (e : ext V Med)
    (k : Key) (v : V) :
  BufferedStore._add_new idx [k] [Some v] (b, e)
  = (Ok tt,
     (match idx k !! BufferedStore.content_store b with
      | Some _ =>
          BufferedStore.with_store
            (Store.with_data (<[k := Some v]> (Store.data (BufferedStore._store b)))
                             (BufferedStore._store b))
            (BufferedStore.with_cache (<[k := Some v]> (BufferedStore._cache b)) b)
      | None => b
      end, e)).
Proof.
  unfold BufferedStore._add_new. cbn [zip_with foldM fst snd].
  unfold bind at 1, BufferedStore.add_one.
  unfold bind at 1, BufferedStore.self, gets. cbn [fst].
  destruct (idx k !! BufferedStore.content_store b) as [off|] eqn:Hoff.
  - rewrite decide_True by (split; [by eapply lookup_Some_size_pos | done]).
    by destruct b.
  - rewrite decide_False by (intros [_ [? ?]]; done).
    done.
Qed.


End Facts.
End StoreFacts.

Module ChainFacts.
Import Heap.
Section Facts.
Context {V : Type}.
Local Abbreviation val := (option V).

Lemma replace_none_map {K} (f g : K -> val) (items : list K) :
  replace_none (zip items (map f items)).*2
               (map g (nones_of (zip items (map f items))))
  = Ok (map (fun k => match f k with Some v => Some v | None => g k end) items).
Proof.
  induction items as [|k items IH]; [done|].
  unfold nones_of in *. cbn [map zip_with]. rewrite filter_cons, !fmap_cons.
  cbn [fst snd replace_none].
  destruct (f k) as [v|] eqn:Hf; case_decide; try done.
  - by rewrite IH.
  - rewrite fmap_cons. cbn [map fst]. by rewrite IH.
Qed.

Lemma nones_of_map {K} (f : K -> val) (items : list K) :
  nones_of (zip items (map f items)) = filter (fun k => f k = None) items.
Proof.
  unfold nones_of. induction items as [|k items IH]; [done|].
  cbn [map zip_with]. rewrite !filter_cons. cbn [snd].
  case_decide; rewrite ?fmap_cons, IH; done.
Qed.

Lemma no_nones_map {K} (f g : K -> val) (items : list K) :
  length (nones_of (zip items (map f items))) = 0 ->
  map f items
  = map (fun k => match f k with Some v => Some v | None => g k end) items.
Proof.
  rewrite nones_of_map. intros Hn. apply length_zero_iff_nil in Hn.
  apply map_ext_in. intros k Hk. destruct (f k) eqn:Hf; [done|].
  exfalso. assert (k ∈ filter (fun k => f k = None) items) as Hin.
  { apply list_elem_of_filter. split; [done|]. by apply list_elem_of_In. }
  rewrite Hn in Hin. by apply not_elem_of_nil in Hin.
Qed.

Lemma multi_cache_lookup (g : Key -> val) (ks : list Key) (k : Key) :
  k ∈ ks ->
  ExpandMulti.multi_cache (zip ks (map g ks)) !! k = Some (g k).
Proof.
  unfold ExpandMulti.multi_cache.
  assert (forall (m : gmap Key val),
            foldl (fun m p => <[fst p := snd p]> m) m (zip ks (map g ks)) !! k
            = if decide (k ∈ ks) then Some (g k) else m !! k) as Hgen.
  { induction ks as [|k0 ks IH]; intros m.
    - cbn. rewrite decide_False; [done|]. apply not_elem_of_nil.
    - cbn [map zip_with foldl fst snd]. rewrite IH.
      destruct (decide (k ∈ ks)) as [Hin|Hout].
      + rewrite decide_True; [done|]. by apply list_elem_of_further.
      + destruct (decide (k = k0)) as [->|Hne].
        * rewrite lookup_insert_eq. rewrite decide_True; [done|]. apply list_elem_of_here.
        * rewrite lookup_insert_ne by done. rewrite decide_False; [done|].
          intros Hc. apply elem_of_cons in Hc. destruct Hc as [?|?]; done. }
  intros Hin. rewrite Hgen. by rewrite decide_True.
Qed.

Lemma expand_map (g : Key -> val) (m : gmap Key val) (items : list Key) :
  (forall k, k ∈ items -> m !! k = Some (g k)) ->
  ExpandMulti.expand m items = Ok (map g items).
Proof.
  induction items as [|k items IH]; intros Hm; [done|].
  cbn. rewrite (Hm k) by apply list_elem_of_here.
  rewrite IH; [done|]. intros k' Hk'. apply Hm. by apply list_elem_of_further.
Qed.

Lemma elem_of_uniques (k : Key) (items : list Key) :
  k ∈ ExpandMulti.uniques items <-> k ∈ items.
Proof. unfold ExpandMulti.uniques. rewrite elem_of_elements. apply elem_of_list_to_set. Qed.



Lemma template_keywise (o : obj V) (l : loc) (w1 : world V)
    (items : list Key) (behind : option (list Key -> M (world V) (list val)))
    (g : Key -> val) :
  Link.keywise o ->
  is_Some (heap w1 !! l) ->
  (forall pg items', behind = Some pg ->
     exists w', pg items' w1 = (Ok (map g items'), w') /\ keeps_objects w1 w') ->
  exists w',
    ChainDict.__getitem__ (fun its => ret (Link._get_list o its)) behind
                          (ChainDict._add_new l) items w1
    = (Ok (map (fun k => match Link.local o k with
                         | Some v => Some v
                         | None => match behind with Some _ => g k | None => None end
                         end) items), w')
    /\ keeps_objects w1 w'.
Proof.
  intros Hkw Hl Hbehind.
  unfold ChainDict.__getitem__, bind at 1, ret. rewrite (Hkw items).
  destruct behind as [pg|].
  - case_decide as Hn.
    + exists w1. split; [|by intros x Hx]. f_equal. f_equal. by apply no_nones_map.
    + destruct (Hbehind pg (nones_of (zip items (map (Link.local o) items))) eq_refl)
        as (w2 & Hrun & Hdom).
      unfold bind at 1. rewrite Hrun.
      destruct (Hdom l Hl) as [o2 Ho2].
      unfold bind at 1, ChainDict._add_new, bind at 1, deref. rewrite Ho2.
      unfold assign, modify, lift. rewrite replace_none_map.
      eexists. split; [done|]. intros x Hx. cbn [heap].
      destruct (decide (x = l)) as [->|Hne].
      * by rewrite lookup_insert_eq.
      * rewrite lookup_insert_ne by done. by apply Hdom.
  - exists w1. split; [|by intros x Hx]. f_equal. f_equal.
    apply map_ext. intros k. by destruct (Link.local o k).
Qed.

Lemma getitem_total n : forall fuel (w : world V) l items,
  Link.chain_ok (heap w) n l -> n <= fuel ->
  exists w',
    Link.getitem fuel l items w
    = (Ok (map (Link.chain_value (heap w) n l) items), w')
    /\ keeps_objects w w'.
Proof.
  induction n as [|n IH]; intros fuel w l items Hok Hfuel; [done|].
  destruct fuel as [|fuel]; [lia|]. assert (n <= fuel) as Hle by lia.
  destruct Hok as (o & Hl & Hcls).
  set (w1 := {| heap := heap w; trace := trace w ++ [Getitem l items] |}).
  assert (Link.getitem (S fuel) l items w
          = (let post := option_map (Link.getitem fuel) (post o) in
             match o_cls o with
             | CChainDict | CFunction =>
                 ChainDict.__getitem__ (fun its => ret (Link._get_list o its))
                                       post (ChainDict._add_new l) items
             | CWrap => Wrap.__getitem__ post items
             | CExpandMulti => ExpandMulti.__getitem__ post items
             end) w1) as ->.
  { cbn [Link.getitem]. unfold bind at 1, record, modify. unfold bind at 1, deref.
    cbn [heap]. by rewrite Hl. }
  cbn [Link.chain_value]. rewrite Hl. cbv zeta.
  assert (forall p items', Link.chain_ok (heap w) n p ->
            exists w', Link.getitem fuel p items' w1
                       = (Ok (map (Link.chain_value (heap w) n p) items'), w')
                       /\ keeps_objects w1 w')
    as Hrec.
  { intros p items' Hp. apply (IH fuel w1 p items'); done. }
  assert (forall g,
    Link.keywise o ->
    (forall p, post o = Some p -> Link.chain_ok (heap w) n p /\ g = Link.chain_value (heap w) n p) ->
    exists w',
    ChainDict.__getitem__ (fun its => ret (Link._get_list o its))
       (option_map (Link.getitem fuel) (post o)) (ChainDict._add_new l) items w1
    = (Ok (map (fun k => match Link.local o k with
                         | Some v => Some v
                         | None => match post o with
                                   | Some p => Link.chain_value (heap w) n p k
                                   | None => None
                                   end
                         end) items), w')
    /\ keeps_objects w w') as Htemplate.
  { intros g Hkw Hp.
    destruct (template_keywise o l w1 items
                (option_map (Link.getitem fuel) (post o)) g Hkw) as (w' & Hrun & Hdom).
    - cbn [heap w1]. by rewrite Hl.
    - intros pg items' Hpg. destruct (post o) as [p|]; [|done].
      injection Hpg as <-. destruct (Hp p eq_refl) as [Hpok ->]. by apply Hrec.
    - exists w'. split; [|done]. rewrite Hrun. f_equal. f_equal.
      apply map_ext. intros k. destruct (Link.local o k); [done|].
      destruct (post o) as [p|]; [|done]. cbn [option_map].
      by destruct (Hp p eq_refl) as [_ ->]. }
  destruct (o_cls o) eqn:Hc.
  - destruct Hcls as [Hkw Hpost].
    apply (Htemplate (match post o with Some p => Link.chain_value (heap w) n p | None => fun _ => None end) Hkw).
    intros p Hp. rewrite Hp in Hpost |- *. done.
  - destruct (post o) as [p|] eqn:Hp; [|done]. cbn [option_map Wrap.__getitem__].
    by apply Hrec.
  - destruct (post o) as [p|] eqn:Hp; [|done]. cbn [option_map].
    unfold ExpandMulti.__getitem__. case_decide as Hlen.
    + apply length_zero_iff_nil in Hlen. subst items. exists w1. split; [done|by intros x Hx].
    + destruct (Hrec p (ExpandMulti.uniques items) Hcls) as (w2 & Hrun & Hdom).
      unfold bind at 1. rewrite Hrun. unfold lift.
      rewrite (expand_map (Link.chain_value (heap w) n p)).
      * by exists w2.
      * intros k Hk. apply multi_cache_lookup. by apply elem_of_uniques.
  - destruct Hcls as [Hkw Hpost].
    apply (Htemplate (match post o with Some p => Link.chain_value (heap w) n p | None => fun _ => None end) Hkw).
    intros p Hp. rewrite Hp in Hpost |- *. done.
Qed.





Lemma add_run (w : world V) (A B : loc) (oB : obj V) :
  heap w !! B = Some oB ->
  ChainDict.__add__ A B w
  = (Ok B, {| heap := <[B := with_post (Some A) oB]> (heap w);
              trace := trace w |}).
Proof.
  intros HB. unfold ChainDict.__add__, bind at 1, deref. rewrite HB.
  done.
Qed.

(** C1, as the code has it.  [A + B] assigns [B.post = A] in place and
    returns [B] itself: the right operand is in front and the left operand is
    its fallback.  [L1 + L2 + L3], which Python groups as [(L1 + L2) + L3],
    returns [L3] with [L3.post = L2] and [L2.post = L1]; no other object
    changes. *)
Theorem add_puts_right_operand_in_front (w : world V) (L1 L2 L3 : loc)
    (o2 o3 : obj V) :
  heap w !! L2 = Some o2 ->
  heap w !! L3 = Some o3 ->
  L2 <> L3 ->
  ChainDict.__add__ L1 L2 w
  = (Ok L2, {| heap := <[L2 := with_post (Some L1) o2]> (heap w);
               trace := trace w |})
  /\ (x <- ChainDict.__add__ L1 L2 ;; ChainDict.__add__ x L3) w
     = (Ok L3,
        {| heap := <[L3 := with_post (Some L2) o3]>
                     (<[L2 := with_post (Some L1) o2]> (heap w));
           trace := trace w |}).
Proof.
  intros H2 H3 Hne. split; [by apply add_run|].
  unfold bind. rewrite (add_run w L1 L2 o2 H2).
  rewrite (add_run _ L2 L3 o3); [done|].
  cbn [heap]. by rewrite lookup_insert_ne.
Qed.

Lemma no_nones_of_resolved {K} (items : list K) (results : list val) :
  Forall is_Some results -> nones_of (zip items results) = [].
Proof.
  intros Hall. unfold nones_of.
  revert items. induction Hall as [|r results Hr Hall IH]; intros [|k items];
    try done.
  cbn [zip_with]. rewrite filter_cons. cbn [snd].
  destruct Hr as [v ->]. rewrite decide_False by done. apply IH.
Qed.

End Facts.
End ChainFacts.

Module MultiStoreFacts.
Import Medium.
Section Facts.
Context {V Med : Type}.
Local Abbreviation val := (option V).
Context (zero : V) (drv : driver V Med) (idx : Key -> gmap Handle Z)
        (content_store_of : Handle -> Handle)
        (scope_idx : option (gmap Handle Z)).
Local Abbreviation W := (MultiStore.state V * ext V Med)%type.


Lemma merge_lookup (out r : list val) (i : nat) (v : V) :
  MultiStore.merge out r !! i = Some (Some v)
  <-> out !! i = Some (Some v) /\ MultiStore.resolved r i.
Proof.
  unfold MultiStore.merge, MultiStore.resolved. rewrite lookup_zip_with_Some. split.
  - intros (x & y & Hxy & Hx & Hy). destruct x as [x|], y as [y|]; try done.
    injection Hxy as ->. split; [done|by exists y].
  - intros (Hout & v' & Hr). by exists (Some v), (Some v').
Qed.

Lemma foldl_merge_lookup (rs : list (list val)) (out : list val) (i : nat)
    (v : V) :
  foldl MultiStore.merge out rs !! i = Some (Some v)
  <-> out !! i = Some (Some v) /\ forall r, r ∈ rs -> MultiStore.resolved r i.
Proof.
  revert out. induction rs as [|r rs IH]; intros out.
  - cbn. split; [|by intros [? _]]. intros H. split; [done|].
    intros r Hr. by apply elem_of_nil in Hr.
  - cbn [foldl]. rewrite IH, merge_lookup. split.
    + intros [[Hout Hr] Hrs]. split; [done|]. intros r' Hr'.
      apply elem_of_cons in Hr' as [->|Hr']; [done|by apply Hrs].
    + intros [Hout Hall]. split; [split; [done|]|].
      * apply Hall, list_elem_of_here.
      * intros r' Hr'. by apply Hall, list_elem_of_further.
Qed.

Lemma reduce_cons (s0 : Handle) (r0 : list val)
    (entries : list (Handle * list val)) :
  MultiStore.reduce ((s0, r0) :: entries)
  = Some (foldl MultiStore.merge r0 entries.*2).
Proof.
  unfold MultiStore.reduce. cbn [foldl snd].
  generalize r0. induction entries as [|[s r] entries IH]; intros out; [done|].
  cbn [foldl snd fmap list_fmap]. apply IH.
Qed.

Lemma on_cod_store_dom {A} (s : Handle)
    (c : M (BufferedStore.state V * ext V Med) A) (w w' : W) (r : result A) :
  is_Some (MultiStore.cod_stores (fst w) !! s) ->
  MultiStore.on_cod_store s c w = (r, w') ->
  dom (MultiStore.cod_stores (fst w')) = dom (MultiStore.cod_stores (fst w)).
Proof.
  intros [b Hb] Hrun. unfold MultiStore.on_cod_store in Hrun. rewrite Hb in Hrun.
  unfold zoom in Hrun. cbn [fst snd] in Hrun.
  destruct (c (b, snd w)) as [r' [b' e']]. injection Hrun as _ <-.
  cbn [fst MultiStore.cod_stores MultiStore.with_cod_stores].
  rewrite dom_insert_L. apply elem_of_dom_2 in Hb.
  apply set_eq. intros x. rewrite elem_of_union, elem_of_singleton.
  split; [intros [->|?]; done|by right].
Qed.

Lemma query_loop_dom (items : list Key) (n0 : nat) (ks : list Handle) :
  forall (acc acc' : gmap Handle (list val)) (w w' : W),
  (forall k, k ∈ ks -> is_Some (MultiStore.cod_stores (fst w) !! k)) ->
  dict_for (fun w : W => size (MultiStore.cod_stores (fst w))) n0 ks
    (fun s results_list =>
       r <- MultiStore.on_cod_store s
              (BufferedStore.__getitem__ zero drv idx items) ;;
       ret (<[s := r]> results_list)) acc w = (Ok acc', w') ->
  dom (MultiStore.cod_stores (fst w')) = dom (MultiStore.cod_stores (fst w))
  /\ dom acc' = dom acc ∪ list_to_set ks.
Proof.
  induction ks as [|k ks IH]; intros acc acc' w w' Hks Hrun.
  - cbn in Hrun. unfold bind, gets in Hrun. case_decide; [|done].
    injection Hrun as <- <-. split; [done|].
    cbn [list_to_set foldr]. by rewrite (right_id_L ∅ (∪)).
  - cbn [dict_for] in Hrun. unfold bind at 1, gets in Hrun.
    case_decide; [|done]. unfold bind at 1 in Hrun. unfold bind at 1 in Hrun.
    destruct (MultiStore.on_cod_store k
                (BufferedStore.__getitem__ zero drv idx items) w)
      as [r w1] eqn:Hq.
    pose proof (on_cod_store_dom k _ w w1 r (Hks k (list_elem_of_here _ _)) Hq)
      as Hdom1.
    destruct r as [r| |]; [|done|done]. unfold ret in Hrun.
    assert (forall k', k' ∈ ks -> is_Some (MultiStore.cod_stores (fst w1) !! k'))
      as Hks1.
    { intros k' Hk'. apply elem_of_dom. rewrite Hdom1. apply elem_of_dom.
      by apply Hks, list_elem_of_further. }
    destruct (IH _ _ _ _ Hks1 Hrun) as [Hdom Hacc].
    split; [by rewrite Hdom|]. rewrite Hacc, dom_insert_L.
    cbn [list_to_set foldr]. by rewrite (assoc_L (∪)), (comm_L (∪) (dom acc)).
Qed.

Lemma query_all_dom (items : list Key) (w w' : W)
    (results_list : gmap Handle (list val)) :
  MultiStore.query_all zero drv idx items w = (Ok results_list, w') ->
  dom results_list = dom (MultiStore.cod_stores (fst w)).
Proof.
  unfold MultiStore.query_all, bind at 1, MultiStore.self, gets. intros Hrun.
  assert (forall k, k ∈ (map_to_list (MultiStore.cod_stores (fst w))).*1 ->
                    is_Some (MultiStore.cod_stores (fst w) !! k)) as Hks.
  { intros k Hk. apply list_elem_of_fmap in Hk as ([k' b] & -> & Hin).
    apply elem_of_map_to_list in Hin. by exists b. }
  destruct (query_loop_dom _ _ _ _ _ _ _ Hks Hrun) as [_ Hacc].
  rewrite Hacc, dom_empty_L, (left_id_L ∅ (∪)).
  apply set_eq. intros k. rewrite elem_of_list_to_set, elem_of_dom.
  rewrite list_elem_of_fmap. split.
  - intros ([k' b] & -> & Hin). apply elem_of_map_to_list in Hin. by exists b.
  - intros [b Hb]. exists (k, b). split; [done|]. by apply elem_of_map_to_list.
Qed.

(** C6.  After the destinations are brought up to date, a batch get on a
    [MultiStore] with no destination returns [None] for every key.  With
    destinations, every registered destination is queried; a position of the
    result holds a value only if every destination reported a value there,
    and when all did, the result holds the value one of them reported. *)
Theorem fan_out_get_is_conjunctive (m : MultiStore.state V) (e : ext V Med)
    (items : list Key) (w1 : W) :
  MultiStore.reconcile content_store_of scope_idx (m, e) = (Ok tt, w1) ->
  (size (MultiStore.cod_stores (fst w1)) = 0 ->
   MultiStore._get_list zero drv idx content_store_of scope_idx items (m, e)
   = (Ok (times None (length items)), w1))
  /\
  (size (MultiStore.cod_stores (fst w1)) <> 0 ->
   forall results_list w2,
     MultiStore.query_all zero drv idx items w1 = (Ok results_list, w2) ->
     dom results_list = dom (MultiStore.cod_stores (fst w1))
     /\ exists output,
          MultiStore._get_list zero drv idx content_store_of scope_idx items
                               (m, e) = (Ok output, w2)
          /\ (forall i v,
                output !! i = Some (Some v) ->
                forall s r, results_list !! s = Some r -> MultiStore.resolved r i)
          /\ (forall i,
                (forall s r, results_list !! s = Some r -> MultiStore.resolved r i) ->
                exists s r v,
                  results_list !! s = Some r
                  /\ r !! i = Some (Some v)
                  /\ output !! i = Some (Some v))).
Proof.
  intros Hrec.
  assert (MultiStore._get_list zero drv idx content_store_of scope_idx items (m, e)
          = (if decide (size (MultiStore.cod_stores (fst w1)) = 0)
             then ret (times None (length items))
             else
               results_list <- MultiStore.query_all zero drv idx items ;;
               match MultiStore.reduce (map_to_list results_list) with
               | Some output => ret output
               | None => raise TypeError
               end) w1) as Hget.
  { unfold MultiStore._get_list, bind at 1. rewrite Hrec.
    unfold bind at 1, MultiStore.self, gets. done. }
  split.
  - intros Hz. rewrite Hget. by rewrite decide_True.
  - intros Hnz results_list w2 Hq.
    pose proof (query_all_dom items w1 w2 results_list Hq) as Hdom.
    split; [done|].
    rewrite Hget, decide_False by done. unfold bind at 1. rewrite Hq.
    destruct (map_to_list results_list) as [|[s0 r0] entries] eqn:Hentries.
    { apply map_to_list_empty_iff in Hentries. subst results_list.
      rewrite dom_empty_L in Hdom. symmetry in Hdom.
      apply dom_empty_iff_L in Hdom. by rewrite Hdom, map_size_empty in Hnz. }
    rewrite reduce_cons. eexists. split; [done|].
    assert (forall s r, results_list !! s = Some r
                        <-> (s, r) = (s0, r0) \/ (s, r) ∈ entries) as Hin.
    { intros s r. rewrite <- elem_of_map_to_list, Hentries. apply elem_of_cons. }
    split.
    + intros i v Hout s r Hsr. apply foldl_merge_lookup in Hout as [Hr0 Hrest].
      apply Hin in Hsr as [Heq|Hsr].
      * injection Heq as -> ->. by exists v.
      * apply Hrest. apply list_elem_of_fmap. by exists (s, r).
    + intros i Hall. destruct (Hall s0 r0) as [v Hv]; [apply Hin; by left|].
      exists s0, r0, v. split; [apply Hin; by left|]. split; [done|].
      apply foldl_merge_lookup. split; [done|].
      intros r Hr. apply list_elem_of_fmap in Hr as ([s r'] & -> & Hr).
      apply (Hall s). apply Hin. by right.
Qed.

Lemma stores_stable (m : MultiStore.state V) (e : ext V Med)
    (sidx : gmap Handle Z) :
  scope_idx = Some sidx ->
  length (MultiStore._stores m) = size sidx ->
  MultiStore.stores scope_idx (m, e) = (Ok (MultiStore._stores m), (m, e)).
Proof.
  intros -> Hlen. unfold MultiStore.stores, bind at 1, MultiStore.self, gets.
  cbn [fst]. rewrite decide_False by lia. done.
Qed.

Lemma removal_loop_raises (m : MultiStore.state V) (e : ext V Med)
    (sidx : gmap Handle Z) (d : Handle) (ks : list Handle) :
  scope_idx = Some sidx ->
  length (MultiStore._stores m) = size sidx ->
  (forall k, k ∈ ks -> is_Some (MultiStore.cod_stores m !! k)) ->
  d ∈ ks ->
  d ∉ MultiStore._stores m ->
  exists w',
    dict_for (fun w : W => size (MultiStore.cod_stores (fst w)))
      (size (MultiStore.cod_stores m)) ks
      (fun store _ =>
         ss <- MultiStore.stores scope_idx ;;
         if decide (store ∉ ss) then
           m <- MultiStore.self ;;
           MultiStore.set_cod_stores (delete store (MultiStore.cod_stores m))
         else ret tt) tt (m, e)
    = (Raise RuntimeError, w').
Proof.
  intros Hscope Hlen Hks Hd Hgone.
  induction ks as [|k ks IH]; [by apply elem_of_nil in Hd|].
  cbn [dict_for]. unfold bind at 1, gets. cbn [fst].
  rewrite decide_True by done. unfold bind at 1. unfold bind at 1.
  rewrite (stores_stable m e sidx Hscope Hlen).
  destruct (decide (k ∉ MultiStore._stores m)) as [Hk|Hk].
  - unfold bind at 1, MultiStore.self, gets, MultiStore.set_cod_stores, modify.
    cbn [fst snd].
    assert (size (delete k (MultiStore.cod_stores m))
            <> size (MultiStore.cod_stores m)) as Hsize.
    { destruct (Hks k (list_elem_of_here _ _)) as [b Hb].
      pose proof (map_size_insert_None k b (delete k (MultiStore.cod_stores m))
                    (lookup_delete_eq _ _)) as Hins.
      rewrite insert_delete_id in Hins by done. lia. }
    destruct ks as [|k' ks]; cbn [dict_for]; unfold bind at 1, gets;
      cbn [fst MultiStore.cod_stores MultiStore.with_cod_stores];
      rewrite decide_False by done; by eexists.
  - unfold ret. apply IH.
    + intros k' Hk'. by apply Hks, list_elem_of_further.
    + apply elem_of_cons in Hd as [->|Hd]; [|done].
      exfalso. apply Hk. done.
Qed.

Lemma update_nod_stores_raises (m : MultiStore.state V) (e : ext V Med)
    (sidx : gmap Handle Z) (d : Handle) :
  scope_idx = Some sidx ->
  length (MultiStore._stores m) = size sidx ->
  is_Some (MultiStore.cod_stores m !! d) ->
  d ∉ MultiStore._stores m ->
  exists w',
    MultiStore.update_nod_stores content_store_of scope_idx (m, e)
    = (Raise RuntimeError, w').
Proof.
  intros Hscope Hlen [b Hd] Hgone.
  assert (forall k, k ∈ (map_to_list (MultiStore.cod_stores m)).*1 ->
                    is_Some (MultiStore.cod_stores m !! k)) as Hks.
  { intros k Hk. apply list_elem_of_fmap in Hk as ([k' b'] & -> & Hin).
    apply elem_of_map_to_list in Hin. by exists b'. }
  assert (d ∈ (map_to_list (MultiStore.cod_stores m)).*1) as Hin.
  { apply list_elem_of_fmap. exists (d, b). split; [done|].
    by apply elem_of_map_to_list. }
  destruct (removal_loop_raises m e sidx d _ Hscope Hlen Hks Hin Hgone)
    as [w' Hloop].
  exists w'. unfold MultiStore.update_nod_stores, bind at 1.
  change (MultiStore.self (m, e)) with (@Ok (MultiStore.state V) m, (m, e)).
  cbv beta iota. unfold bind at 1. by rewrite Hloop.
Qed.

Lemma reconcile_raises (m : MultiStore.state V) (e : ext V Med)
    (sidx : gmap Handle Z) (d : Handle) :
  scope_idx = Some sidx ->
  size sidx <> length (MultiStore._stores m) ->
  size sidx <> size (MultiStore.cod_stores m) ->
  is_Some (MultiStore.cod_stores m !! d) ->
  sidx !! d = None ->
  exists w',
    MultiStore.reconcile content_store_of scope_idx (m, e)
    = (Raise RuntimeError, w').
Proof.
  intros Hscope Hstale Hcount Hd Hgone.
  unfold MultiStore.reconcile, bind at 1.
  assert (MultiStore.stores scope_idx (m, e)
          = (Ok (map_to_list sidx).*1,
             (MultiStore.with_stores (map_to_list sidx).*1 m, e))) as ->.
  { rewrite Hscope. unfold MultiStore.stores, bind at 1, MultiStore.self, gets.
    cbn [fst]. rewrite decide_True by done. done. }
  unfold bind at 1, MultiStore.self, gets.
  cbn [fst MultiStore.cod_stores MultiStore.with_stores].
  assert (length (map_to_list sidx).*1 <> size (MultiStore.cod_stores m)) as Hne.
  { by rewrite length_fmap, length_map_to_list. }
  rewrite (decide_True _ _ Hne).
  apply (update_nod_stores_raises _ e sidx d Hscope).
  - cbn [MultiStore._stores MultiStore.with_stores]. by rewrite length_fmap, length_map_to_list.
  - done.
  - cbn [MultiStore._stores MultiStore.with_stores]. intros Hin.
    apply list_elem_of_fmap in Hin as ([d' z] & -> & Hin).
    apply elem_of_map_to_list in Hin. cbn in Hgone. congruence.
Qed.

(** C9, the code at the failing input.  When the count of the destinations
    has changed and a registered destination is no longer in the scope,
    [_get_list], [_add_new] and [sync] end in [RuntimeError]: the loop of
    [update_nod_stores] deletes from [cod_stores] while iterating over it. *)
Theorem public_methods_raise_when_a_destination_is_gone
    (m : MultiStore.state V) (e : ext V Med) (sidx : gmap Handle Z)
    (d : Handle) (items : list Key) (values : list val) :
  scope_idx = Some sidx ->
  size sidx <> length (MultiStore._stores m) ->
  size sidx <> size (MultiStore.cod_stores m) ->
  is_Some (MultiStore.cod_stores m !! d) ->
  sidx !! d = None ->
  (exists w',
     MultiStore._get_list zero drv idx content_store_of scope_idx items (m, e)
     = (Raise RuntimeError, w'))
  /\ (exists w',
        MultiStore._add_new idx content_store_of scope_idx items values (m, e)
        = (Raise RuntimeError, w'))
  /\ (exists w',
        MultiStore.sync drv idx content_store_of scope_idx (m, e)
        = (Raise RuntimeError, w')).
Proof.
  intros Hscope Hstale Hcount Hd Hgone.
  destruct (reconcile_raises m e sidx d Hscope Hstale Hcount Hd Hgone)
    as [w' Hrec].
  split; [|split]; exists w'.
  - unfold MultiStore._get_list, bind at 1. by rewrite Hrec.
  - unfold MultiStore._add_new, bind at 1. by rewrite Hrec.
  - unfold MultiStore.sync, bind at 1. by rewrite Hrec.
Qed.
End Facts.
End MultiStoreFacts.

(** * The claims at concrete inputs *)

Module ChainExamples.
Import Heap Demo ChainFacts.

(** C1 as the specification states it fails: after [link_a + link_b],
    neither the returned link nor [link_a] has [link_b] as its fallback. *)
Lemma add_result_has_no_fallback_to_right_operand :
  ~ (exists X w',
       ChainDict.__add__ link_a link_b three_links = (Ok X, w')
       /\ (((heap w' !! X) ≫= post) = Some link_b
           \/ ((heap w' !! link_a) ≫= post) = Some link_b)).
Proof.
  intros (X & w' & Hrun & Hpost).
  rewrite (add_run three_links link_a link_b obj_b eq_refl) in Hrun.
  injection Hrun as <- <-. vm_compute in Hpost.
  destruct Hpost; discriminate.
Qed.

(** C1 at three plain links. *)
Lemma add_puts_right_operand_in_front_witness :
  heap three_links !! link_b = Some obj_b
  /\ heap three_links !! link_c = Some obj_c
  /\ link_b <> link_c
  /\ ChainDict.__add__ link_a link_b three_links
     = (Ok link_b,
        {| heap := <[link_b := with_post (Some link_a) obj_b]> (heap three_links);
           trace := [] |})
  /\ (x <- ChainDict.__add__ link_a link_b ;; ChainDict.__add__ x link_c)
       three_links
     = (Ok link_c,
        {| heap := <[link_c := with_post (Some link_b) obj_c]>
                     (<[link_b := with_post (Some link_a) obj_b]>
                        (heap three_links));
           trace := [] |}).
Proof.
  assert (link_b <> link_c) as Hne by discriminate.
  split; [reflexivity|]. split; [reflexivity|]. split; [exact Hne|].
  exact (add_puts_right_operand_in_front three_links link_a link_b link_c
           obj_b obj_c eq_refl eq_refl Hne).
Defined.





End ChainExamples.

Module StoreExamples.
Import Medium Demo StoreFacts.

(** C2 as the specification states it fails: a key without any offset is
    in the buffer after [_add_new]. *)
Lemma add_new_buffers_key_without_offset :
  ~ (forall s' e',
       Store._add_new demo_drv no_offsets [key7] [Some 1%Z] (store1, ext135)
       = (Ok tt, (s', e')) ->
       forall k, is_Some (Store.data s' !! k) ->
                 is_Some (Store._get_key no_offsets store1 k)
                 \/ is_Some (no_offsets k !! Store.content_store store1)).
Proof.
  intros Hclaim.
  destruct (Hclaim _ _ (add_new_run demo_drv no_offsets store1 ext135
                          [key7] [Some 1%Z] eq_refl) key7) as [[z Hz]|[z Hz]].
  - by eexists.
  - discriminate.
  - discriminate.
Qed.

(** C2 at a store without a limit and a key without any offset, and at a
    store with a limit of one entry and a batch of two: [key7] is written at
    its offset for the content store, and [key9], which has none, is
    discarded in the same call. *)
Lemma add_new_buffers_whatever_the_offset_witness :
  (exists s',
     Store._add_new demo_drv no_offsets [key8; key7] [Some 2%Z; Some 1%Z]
                    (store1, ext135) = (Ok tt, (s', ext135))
     /\ Store.data s' !! key7 = Some (Some 1%Z))
  /\ exists m',
       drv_set_list_value demo_drv handle1 [5%Z] [Some 70%Z] med135
       = (Ok tt, m')
       /\ Store._add_new demo_drv content_offsets [key9; key7]
            [Some 90%Z; Some 70%Z] (DemoMore.store_limit1, ext135)
          = (Ok tt,
             (Store.with_data ∅ DemoMore.store_limit1,
              {| med := m';
                 calls := [SetListValue handle1 [5%Z] [Some 70%Z]] |})).
Proof.
  split.
  - destruct (add_new_buffers_whatever_the_offset demo_drv no_offsets store1
                ext135 [key8; key7] [Some 2%Z; Some 1%Z])
      as (Hin & _ & Hrun & _).
    eexists. split.
    + apply Hrun. intros limit Hlimit. discriminate Hlimit.
    + exact (Hin [(key8, Some 2%Z)] key7 (Some 1%Z) [] eq_refl
                 (not_elem_of_nil key7)).
  - eexists. split; [vm_compute; reflexivity|].
    refine (proj1 (proj2 (proj2 (proj2
      (add_new_buffers_whatever_the_offset demo_drv content_offsets
         DemoMore.store_limit1 ext135 [key9; key7] [Some 90%Z; Some 70%Z])))
      1%Z _ eq_refl _ _)).
    + vm_compute. reflexivity.
    + vm_compute. reflexivity.
Defined.

(** C3 at the failing input. *)
Lemma add_new_buffers_None_witness :
  Store.max_save_buffer_size store1 = None
  /\ exists s',
       Store._add_new demo_drv no_offsets [key7] [None] (store1, ext135)
       = (Ok tt, (s', ext135))
       /\ Store.data s' !! key7 = Some None
       /\ exists x w',
            Store.__getitem__ 0%Z demo_drv no_offsets None [key7] (s', ext135)
            = (Raise x, w').
Proof.
  split; [reflexivity|].
  exact (add_new_buffers_None 0%Z demo_drv no_offsets store1 ext135 key7
           eq_refl).
Defined.

(** C5 at the offsets [5, 1, 3]: the medium receives [1, 3, 5] and the
    values come back in the order of the request. *)
Lemma load_list_sorted_then_remapped_witness :
  0 < length [5; 1; 3]%Z
  /\ drv_get_list_value demo_drv handle1 [1; 3; 5]%Z med135
     = (Ok [Some 10; Some 30; Some 50]%Z, med135)
  /\ exists ret,
       Store._load_list 0%Z demo_drv [5; 1; 3]%Z (store1, ext135)
       = (Ok ret,
          (store1,
           {| med := med135; calls := [GetListValue handle1 [1; 3; 5]%Z] |}))
       /\ ret = [Some 50; Some 10; Some 30]%Z.
Proof.
  assert (0 < length [5; 1; 3]%Z) as Hlen by (cbn; lia).
  assert (drv_get_list_value demo_drv handle1 [1; 3; 5]%Z med135
          = (Ok [Some 10; Some 30; Some 50]%Z, med135)) as Hdrv
    by (vm_compute; reflexivity).
  split; [exact Hlen|]. split; [exact Hdrv|].
  destruct (load_list_sorted_then_remapped 0%Z demo_drv store1 ext135
              [5; 1; 3]%Z [Some 10; Some 30; Some 50]%Z med135
              Hlen Hdrv eq_refl)
    as (_ & _ & ret & Hrun & _ & _ & Hmap).
  exists ret. split; [exact Hrun|].
  exact (Hmap (fun off => Some (10 * off)%Z) eq_refl).
Defined.

(** C8 at a buffer of three keys, two of them with an offset for the
    content store. *)
Lemma sync_writes_sorted_then_clears_witness :
  exists m',
    drv_set_list_value demo_drv handle1 [1; 5]%Z [Some 80; Some 70]%Z med135
    = (Ok tt, m')
    /\ Store.sync demo_drv content_offsets (store1_filled, ext135)
       = (Ok tt,
          (Store.with_data ∅ store1_filled,
           {| med := m';
              calls := [SetListValue handle1 [1; 5]%Z [Some 80; Some 70]%Z] |})).
Proof.
  eexists. split; [vm_compute; reflexivity|].
  refine (proj1 (sync_writes_sorted_then_clears demo_drv content_offsets
                   store1_filled ext135 _ _)).
  vm_compute. reflexivity.
Defined.

End StoreExamples.

Module MultiStoreExamples.
Import Medium Demo MultiStoreFacts.

(** C6 at two destinations: one value and one [None] give [None], two
    values give the value. *)
Lemma fan_out_get_is_conjunctive_witness :
  MultiStore.reconcile content_of (Some scope_both) (fan_both, ext_one)
  = (Ok tt, (fan_both, ext_one))
  /\ size (MultiStore.cod_stores fan_both) <> 0
  /\ (exists w2,
        MultiStore.query_all 0%Z demo_drv both_offsets [key7] (fan_both, ext_one)
        = (Ok {[ handle1 := [Some 1%Z]; handle2 := [None] ]}, w2)
        /\ exists output,
             MultiStore._get_list 0%Z demo_drv both_offsets content_of
                                  (Some scope_both) [key7] (fan_both, ext_one)
             = (Ok output, w2)
             /\ output = [None])
  /\ (exists w2,
        MultiStore.query_all 0%Z demo_drv both_offsets [key7] (fan_both, ext_two)
        = (Ok {[ handle1 := [Some 1%Z]; handle2 := [Some 1%Z] ]}, w2)
        /\ exists output,
             MultiStore._get_list 0%Z demo_drv both_offsets content_of
                                  (Some scope_both) [key7] (fan_both, ext_two)
             = (Ok output, w2)
             /\ output = [Some 1%Z]).
Proof.
  assert (forall e : ext Z demo_med,
            MultiStore.reconcile content_of (Some scope_both) (fan_both, e)
            = (Ok tt, (fan_both, e))) as Hrec
    by (intros e; vm_compute; reflexivity).
  assert (size (MultiStore.cod_stores fan_both) <> 0) as Hsize
    by (vm_compute; discriminate).
  split; [exact (Hrec ext_one)|]. split; [exact Hsize|].
  split.
  - assert (MultiStore.query_all 0%Z demo_drv both_offsets [key7]
              (fan_both, ext_one)
            = (Ok {[ handle1 := [Some 1%Z]; handle2 := [None] ]},
               snd (MultiStore.query_all 0%Z demo_drv both_offsets [key7]
                      (fan_both, ext_one)))) as Hq
      by (vm_compute; reflexivity).
    destruct (proj2 (fan_out_get_is_conjunctive 0%Z demo_drv both_offsets
                       content_of (Some scope_both) fan_both ext_one [key7]
                       (fan_both, ext_one) (Hrec ext_one)) Hsize _ _ Hq)
      as (_ & output & Hrun & _ & _).
    eexists. split; [exact Hq|]. exists output. split; [exact Hrun|].
    vm_compute in Hrun. by injection Hrun as <-.
  - assert (MultiStore.query_all 0%Z demo_drv both_offsets [key7]
              (fan_both, ext_two)
            = (Ok {[ handle1 := [Some 1%Z]; handle2 := [Some 1%Z] ]},
               snd (MultiStore.query_all 0%Z demo_drv both_offsets [key7]
                      (fan_both, ext_two)))) as Hq
      by (vm_compute; reflexivity).
    destruct (proj2 (fan_out_get_is_conjunctive 0%Z demo_drv both_offsets
                       content_of (Some scope_both) fan_both ext_two [key7]
                       (fan_both, ext_two) (Hrec ext_two)) Hsize _ _ Hq)
      as (_ & output & Hrun & _ & _).
    eexists. split; [exact Hq|]. exists output. split; [exact Hrun|].
    vm_compute in Hrun. by injection Hrun as <-.
Defined.

(** C9 at a store built for two destinations whose scope has lost the
    second one. *)
Lemma public_methods_raise_when_a_destination_is_gone_witness :
  size scope_first <> length (MultiStore._stores fan_both)
  /\ size scope_first <> size (MultiStore.cod_stores fan_both)
  /\ is_Some (MultiStore.cod_stores fan_both !! handle2)
  /\ scope_first !! handle2 = None
  /\ (exists w',
        MultiStore._get_list 0%Z demo_drv both_offsets content_of
                             (Some scope_first) [key7] (fan_both, ext_one)
        = (Raise RuntimeError, w'))
  /\ (exists w',
        MultiStore.sync demo_drv both_offsets content_of (Some scope_first)
                        (fan_both, ext_one)
        = (Raise RuntimeError, w')).
Proof.
  assert (size scope_first <> length (MultiStore._stores fan_both)) as H1
    by (vm_compute; discriminate).
  assert (size scope_first <> size (MultiStore.cod_stores fan_both)) as H2
    by (vm_compute; discriminate).
  assert (is_Some (MultiStore.cod_stores fan_both !! handle2)) as H3
    by (eexists; vm_compute; reflexivity).
  split; [exact H1|]. split; [exact H2|]. split; [exact H3|].
  split; [reflexivity|].
  destruct (public_methods_raise_when_a_destination_is_gone 0%Z demo_drv
              both_offsets content_of (Some scope_first) fan_both ext_one
              scope_first handle2 [key7] [Some 1%Z] eq_refl H1 H2 H3 eq_refl)
    as (Hget & _ & Hsync).
  split; [exact Hget|exact Hsync].
Defined.
End MultiStoreExamples.

(** * Further properties of the chain protocol *)

Module ChainMore.
Import Heap Assign ChainFacts.
Section Facts.
Context {V : Type}.
Local Abbreviation val := (option V).

(** X1.  [_replace_none] returns normally exactly when [replace] has at
    least as many elements as [nones] has [None]; the result is then as long
    as [nones] and keeps every value of [nones] in its place.  Otherwise it
    raises [StopIteration]. *)
Theorem replace_none_outcome (nones replace : list val) :
  match replace_none nones replace with
  | Ok r =>
      count_None nones <= length replace
      /\ length r = length nones
      /\ forall i v, nones !! i = Some (Some v) -> r !! i = Some (Some v)
  | Raise x => x = StopIteration /\ length replace < count_None nones
  | Stuck => False
  end.
Proof.
  unfold count_None. revert replace.
  induction nones as [|[v|] nones IH]; intros replace.
  - cbn. split; [lia|]. split; [done|]. intros i v Hi. done.
  - cbn [replace_none]. rewrite filter_cons, decide_False by done.
    specialize (IH replace).
    destruct (replace_none nones replace) as [r| |]; [|done|done].
    destruct IH as (Hc & Hl & Hk). split; [done|]. split; [cbn; lia|].
    intros [|i] v' Hi; cbn in *; [done|by apply Hk].
  - cbn [replace_none]. rewrite filter_cons, decide_True by done.
    destruct replace as [|x replace]; [cbn; split; [done|lia]|].
    specialize (IH replace).
    destruct (replace_none nones replace) as [r| |]; [|cbn in *; split; [tauto|lia]|done].
    destruct IH as (Hc & Hl & Hk). split; [cbn; lia|]. split; [cbn; lia|].
    intros [|i] v' Hi; cbn in *; [done|by apply Hk].
Qed.

Lemma set_list_step (d : gmap Key val) (k : Key) (x : val)
    (items : list Key) (values : list val) :
  ChainDict._set_list d (k :: items) (x :: values)
  = ChainDict._set_list (ChainDict._set d k x) items values.
Proof.
  unfold ChainDict._set_list. cbn [zip_with]. rewrite filter_cons. cbn [snd].
  destruct x as [v|].
  - rewrite decide_True by by eexists. done.
  - rewrite decide_False by (by intros [? ?]). done.
Qed.

Lemma get_after_set_list (d : gmap Key val) (items : list Key)
    (values : list val) (k : Key) :
  ChainDict._get (ChainDict._set_list d items values) k
  = match last_value k (zip items values) with
    | Some v => Some v
    | None => ChainDict._get d k
    end.
Proof.
  revert d values. induction items as [|k0 items IH]; intros d values; [done|].
  destruct values as [|x values]; [done|].
  rewrite set_list_step, IH. cbn [zip_with last_value].
  destruct (last_value k (zip items values)) as [v|]; [done|].
  unfold ChainDict._get, ChainDict._set.
  destruct (decide (k0 = k)) as [->|Hne].
  - destruct x as [v|]; [by rewrite lookup_insert_eq|done].
  - destruct x as [v|]; [by rewrite lookup_insert_ne|done].
Qed.

(** X2.  After [_set_list], a key holds the last value of the batch that
    was given for it and is not [None]; a key that was given no such value
    keeps the entry it had, whatever [None] values the batch pairs with
    it. *)
Theorem set_list_then_get (d : gmap Key val) (items : list Key)
    (values : list val) (k : Key) :
  ChainDict._get (ChainDict._set_list d items values) k
  = match last_value k (zip items values) with
    | Some v => Some v
    | None => ChainDict._get d k
    end.
Proof. apply get_after_set_list. Qed.

Lemma last_value_map (g : Key -> val) (ks : list Key) (k : Key) :
  last_value k (zip ks (map g ks)) = if decide (k ∈ ks) then g k else None.
Proof.
  induction ks as [|k0 ks IH]; [done|].
  cbn [map zip_with last_value]. rewrite IH.
  destruct (decide (k ∈ ks)) as [Hin|Hout].
  - rewrite (decide_True (P := k ∈ k0 :: ks)) by by apply list_elem_of_further.
    destruct (g k) eqn:Hg; [done|].
    destruct (decide (k0 = k)) as [->|]; [done|done].
  - destruct (decide (k0 = k)) as [->|Hne].
    + rewrite decide_True by apply list_elem_of_here. by destruct (g k).
    + rewrite decide_False; [done|].
      intros Hc. apply elem_of_cons in Hc. destruct Hc as [?|?]; done.
Qed.

(** X3.  An empty batch does not reach the fallback: a link that keeps
    [ChainDict.__getitem__] returns what its own [_get_list] gives for the
    empty list, an [ExpandMulti] returns the empty list even without a
    fallback; no other link is entered and the heap is unchanged. *)
Theorem empty_batch_stays_in_front (fuel : nat) (w : world V) (l : loc)
    (o : obj V) :
  heap w !! l = Some o ->
  o_cls o <> CWrap ->
  Link.getitem (S fuel) l [] w
  = (Ok (match o_cls o with
         | CFunction => Function._get_list (_eval o) (fnc_uses_lists o) []
         | _ => []
         end),
     {| heap := heap w; trace := trace w ++ [Getitem l []] |}).
Proof.
  intros Hl Hcls. cbn [Link.getitem]. unfold bind at 1, record, modify.
  unfold bind at 1, deref. cbn [heap]. rewrite Hl.
  destruct (o_cls o) eqn:Hc; [|done| |].
  - unfold ChainDict.__getitem__, bind at 1, ret, Link._get_list. rewrite Hc.
    by destruct (post o).
  - done.
  - unfold ChainDict.__getitem__, bind at 1, ret, Link._get_list. rewrite Hc.
    by destruct (post o).
Qed.

Lemma multi_cache_at (us : list Key) (r : list val) (j : nat) (k : Key)
    (x : val) :
  NoDup us -> us !! j = Some k -> r !! j = Some x ->
  ExpandMulti.multi_cache (zip us r) !! k = Some x.
Proof.
  unfold ExpandMulti.multi_cache. generalize (∅ : gmap Key val) as m.
  revert r j. induction us as [|u us IH]; intros r j m Hnd Hj Hx; [done|].
  destruct r as [|y r]; [by destruct j|]. cbn [zip_with foldl fst snd].
  apply NoDup_cons in Hnd as [Hu Hnd]. destruct j as [|j]; cbn in Hj, Hx.
  - injection Hj as ->. injection Hx as ->.
    rewrite StoreFacts.buffered_unless_later; [apply lookup_insert_eq|].
    intros Hc. apply Hu. apply list_elem_of_fmap in Hc as ([a b] & -> & Hc).
    by apply elem_of_zip_l in Hc.
  - by eapply IH.
Qed.

Lemma expand_positions (m : gmap Key val) (us : list Key) (rep : list val)
    (items : list Key) :
  (forall k, k ∈ items ->
     exists j x, us !! j = Some k /\ rep !! j = Some x /\ m !! k = Some x) ->
  exists vs,
    ExpandMulti.expand m items = Ok vs
    /\ length vs = length items
    /\ forall i k, items !! i = Some k ->
         exists j, us !! j = Some k /\ vs !! i = rep !! j.
Proof.
  induction items as [|k items IH]; intros Hall.
  - exists []. split; [done|]. split; [done|]. intros i k Hi. done.
  - destruct IH as (vs & Hexp & Hlvs & Hvs).
    { intros k' Hk'. by apply Hall, list_elem_of_further. }
    destruct (Hall k) as (j & x & Hj & Hx & Hm); [apply list_elem_of_here|].
    exists (x :: vs). cbn [ExpandMulti.expand]. rewrite Hm, Hexp.
    split; [done|]. split; [cbn; lia|].
    intros [|i] k' Hi; cbn in Hi.
    + injection Hi as <-. exists j. by rewrite Hx.
    + by apply Hvs.
Qed.

(** X4.  [ExpandMulti] asks its fallback once, for the distinct keys of the
    batch, each of them once.  When the fallback answers with one value per
    key it was asked for, the get returns one value per requested key: the
    value the fallback gave for that key, at every position the key has in
    the request. *)
Theorem expand_multi_asks_each_key_once (fuel : nat) (w : world V)
    (l p : loc) (o : obj V) (items : list Key) (rep : list val)
    (w2 : world V) :
  heap w !! l = Some o ->
  o_cls o = CExpandMulti ->
  post o = Some p ->
  items <> [] ->
  Link.getitem fuel p (ExpandMulti.uniques items)
    {| heap := heap w; trace := trace w ++ [Getitem l items] |}
  = (Ok rep, w2) ->
  length rep = length (ExpandMulti.uniques items) ->
  NoDup (ExpandMulti.uniques items)
  /\ (forall k, k ∈ ExpandMulti.uniques items <-> k ∈ items)
  /\ exists vs,
       Link.getitem (S fuel) l items w = (Ok vs, w2)
       /\ length vs = length items
       /\ forall i k, items !! i = Some k ->
            exists j, ExpandMulti.uniques items !! j = Some k
                      /\ vs !! i = rep !! j.
Proof.
  intros Hl Hcls Hpost Hne Hrun Hlen.
  assert (NoDup (ExpandMulti.uniques items)) as Hnd
    by (unfold ExpandMulti.uniques; apply NoDup_elements).
  split; [done|]. split; [intros k; apply elem_of_uniques|].
  destruct (expand_positions
              (ExpandMulti.multi_cache (zip (ExpandMulti.uniques items) rep))
              (ExpandMulti.uniques items) rep items)
    as (vs & Hexp & Hlvs & Hvs).
  { intros k Hk. apply elem_of_uniques in Hk.
    apply list_elem_of_lookup_1 in Hk as [j Hj].
    destruct (lookup_lt_is_Some_2 rep j) as [x Hx].
    { rewrite Hlen. by eapply lookup_lt_Some. }
    exists j, x. split; [done|]. split; [done|]. by eapply multi_cache_at. }
  exists vs. split; [|done].
  cbn [Link.getitem]. unfold bind at 1, record, modify.
  unfold bind at 1, deref. cbn [heap]. rewrite Hl, Hcls, Hpost.
  cbn [option_map]. unfold ExpandMulti.__getitem__.
  rewrite decide_False by (by destruct items).
  unfold bind at 1. rewrite Hrun. unfold lift. by rewrite Hexp.
Qed.

Lemma last_value_NoDup (items : list Key) (values : list val) (i : nat)
    (k : Key) (x : val) :
  NoDup items -> items !! i = Some k -> values !! i = Some x ->
  last_value k (zip items values) = x.
Proof.
  revert values i. induction items as [|k0 items IH]; intros values i Hnd Hi Hx;
    [done|].
  destruct values as [|x0 values]; [by destruct i|].
  apply NoDup_cons in Hnd as [Hk0 Hnd]. cbn [zip_with last_value].
  destruct i as [|i]; cbn in Hi, Hx.
  - injection Hi as ->. injection Hx as ->.
    assert (last_value k (zip items values) = None) as ->.
    { clear -Hk0. revert values.
      induction items as [|k1 items IH]; intros values; [done|].
      destruct values as [|x1 values]; [done|]. cbn [zip_with last_value].
      apply not_elem_of_cons in Hk0 as [Hne Hk0]. rewrite IH by done.
      by rewrite decide_False. }
    by rewrite decide_True.
  - rewrite (IH values i Hnd Hi Hx). destruct x as [v|]; [done|].
    rewrite decide_False; [done|]. intros ->. apply Hk0.
    by eapply list_elem_of_lookup_2.
Qed.

Lemma get_list_after_set_list (d : gmap Key val) (items : list Key)
    (values : list val) :
  NoDup items -> length values = length items -> Forall is_Some values ->
  ChainDict._get_list (ChainDict._set_list d items values) items = values.
Proof.
  intros Hnd Hlen Hall. apply list_eq. intros i. unfold ChainDict._get_list.
  change (map ?f ?l) with (f <$> l). rewrite list_lookup_fmap.
  destruct (items !! i) as [k|] eqn:Hi.
  - destruct (lookup_lt_is_Some_2 values i) as [x Hx].
    { rewrite Hlen. by eapply lookup_lt_Some. }
    cbn. rewrite get_after_set_list, (last_value_NoDup items values i k x), Hx by done.
    rewrite Forall_lookup in Hall. destruct (Hall i x Hx) as [v ->]. done.
  - cbn. symmetry. apply lookup_ge_None. rewrite Hlen. by apply lookup_ge_None.
Qed.

(** X5.  A set on a [ChainDict] link changes the dict of that link and
    nothing else, its fallback included; a get of the same keys right after
    it (distinct keys, no [None] among the values) returns the values that
    were set and is answered by the link alone. *)
Theorem set_then_get_on_a_link (fuel fuel' : nat) (w : world V) (l : loc)
    (o : obj V) (items : list Key) (values : list val) :
  heap w !! l = Some o ->
  o_cls o = CChainDict ->
  NoDup items ->
  length values = length items ->
  Forall is_Some values ->
  (setitem (S fuel) l items values ;;; Link.getitem (S fuel') l items) w
  = (Ok values,
     {| heap := <[l := with_dict (ChainDict._set_list (o_dict o) items values) o]>
                  (heap w);
        trace := trace w ++ [Getitem l items] |}).
Proof.
  intros Hl Hcls Hnd Hlen Hall. unfold bind at 1. cbn [setitem].
  unfold bind at 1, deref. rewrite Hl, Hcls.
  unfold ChainDict._add_new, bind at 1, deref. rewrite Hl.
  unfold assign, modify. cbn [Link.getitem].
  unfold bind at 1, record, modify. unfold bind at 1, deref.
  cbn [heap trace]. rewrite lookup_insert_eq. cbn [o_cls with_dict]. rewrite Hcls.
  unfold ChainDict.__getitem__, bind at 1, ret, Link._get_list.
  cbn [o_cls o_dict post with_dict]. rewrite ?Hcls.
  rewrite (get_list_after_set_list _ _ _ Hnd Hlen Hall).
  rewrite (no_nones_of_resolved items values Hall).
  by destruct (option_map _ (post o)).
Qed.

Lemma hop_add (h : gmap loc (obj V)) (i j : nat) :
  forall l, hop h (i + j) l = hop h i l ≫= hop h j.
Proof.
  induction i as [|i IH]; intros l; [done|]. cbn [Nat.add hop].
  destruct (h !! l) as [o|]; [|done]. destruct (post o) as [p|]; [|done].
  apply IH.
Qed.

Lemma chain_ok_hop_None (h : gmap loc (obj V)) (n : nat) :
  forall l, Link.chain_ok h n l -> hop h n l = None.
Proof.
  induction n as [|n IH]; intros l Hok; [done|].
  destruct Hok as (o & Hl & Hok). cbn [hop]. rewrite Hl.
  destruct (post o) as [p|]; [|done].
  destruct (o_cls o); try (by apply IH); destruct Hok as [_ Hok]; by apply IH.
Qed.

Lemma chain_ok_no_cycle (h : gmap loc (obj V)) (n c : nat) (l : loc) :
  Link.chain_ok h n l -> hop h (S c) l <> Some l.
Proof.
  intros Hok Hcycle.
  assert (forall k, hop h (k * S c) l = Some l) as Hround.
  { induction k as [|k IH]; [done|].
    change (S k * S c) with (S c + k * S c). by rewrite hop_add, Hcycle. }
  pose proof (chain_ok_hop_None h n l Hok) as Hend.
  specialize (Hround n).
  replace (n * S c) with (n + n * c) in Hround by lia.
  by rewrite hop_add, Hend in Hround.
Qed.

Lemma chain_locs_hop (h : gmap loc (obj V)) (m : nat) :
  forall p x, x ∈ chain_locs h m p -> exists i, hop h i p = Some x.
Proof.
  induction m as [|m IH]; intros p x Hin; [by apply elem_of_nil in Hin|].
  cbn [chain_locs] in Hin. apply elem_of_cons in Hin as [->|Hin]; [by exists 0|].
  destruct (h !! p) as [o|] eqn:Hp; [|by apply elem_of_nil in Hin].
  destruct (post o) as [q|] eqn:Hq; [|by apply elem_of_nil in Hin].
  destruct (IH q x Hin) as [i Hi]. exists (S i). cbn [hop]. by rewrite Hp, Hq.
Qed.

Lemma front_not_behind (h : gmap loc (obj V)) (n m : nat) (l p : loc)
    (o : obj V) :
  Link.chain_ok h n l -> h !! l = Some o -> post o = Some p ->
  l ∉ chain_locs h m p.
Proof.
  intros Hok Hl Hp Hin. destruct (chain_locs_hop h m p l Hin) as [i Hi].
  apply (chain_ok_no_cycle h n i l Hok). cbn [hop]. by rewrite Hl, Hp.
Qed.

Lemma getitem_frame (fuel : nat) :
  forall (p : loc) (items : list Key) (w w' : world V) (r : result (list val))
         (x : loc),
  Link.getitem fuel p items w = (r, w') ->
  x ∉ chain_locs (heap w) fuel p ->
  heap w' !! x = heap w !! x.
Proof.
  induction fuel as [|fuel IH]; intros p items w w' r x Hrun Hx.
  - cbn in Hrun. by injection Hrun as _ <-.
  - cbn [Link.getitem] in Hrun. unfold bind at 1, record, modify in Hrun.
    unfold bind at 1, deref in Hrun. cbn [heap] in Hrun.
    cbn [chain_locs] in Hx. apply not_elem_of_cons in Hx as [Hxp Hx].
    destruct (heap w !! p) as [o|] eqn:Hp; [|by injection Hrun as _ <-].
    assert (forall q its (w1 w2 : world V) r2,
              post o = Some q ->
              Link.getitem fuel q its w1 = (r2, w2) ->
              heap w1 = heap w ->
              heap w2 !! x = heap w !! x) as Hrec.
    { intros q its w1 w2 r2 Hq Hrun2 Hw1. rewrite <- Hw1.
      apply (IH q its w1 w2 r2 x Hrun2). rewrite Hw1. by rewrite Hq in Hx. }
    assert (forall gl,
              ChainDict.__getitem__ (fun its => ret (gl its))
                (option_map (Link.getitem fuel) (post o))
                (ChainDict._add_new p) items
                {| heap := heap w; trace := trace w ++ [Getitem p items] |}
              = (r, w') ->
              heap w' !! x = heap w !! x) as Htemplate.
    { intros gl Ht. unfold ChainDict.__getitem__, bind at 1, ret in Ht.
      destruct (post o) as [q|] eqn:Hq; cbn [option_map] in Ht;
        [|by injection Ht as _ <-].
      case_decide; [by injection Ht as _ <-|].
      unfold bind at 1 in Ht.
      destruct (Link.getitem fuel q _ _) as [r2 w2] eqn:Hrun2.
      pose proof (Hrec q _ _ w2 r2 eq_refl Hrun2 eq_refl) as Hw2.
      destruct r2 as [rep| |]; [|by injection Ht as _ <-|by injection Ht as _ <-].
      unfold bind at 1, ChainDict._add_new, bind at 1, deref in Ht.
      destruct (heap w2 !! p) as [o2|]; [|by injection Ht as _ <-].
      unfold assign, modify, lift in Ht. injection Ht as _ <-.
      cbn [heap]. by rewrite lookup_insert_ne. }
    destruct (o_cls o).
    + by eapply Htemplate.
    + destruct (post o) as [q|] eqn:Hq; cbn in Hrun; [|by injection Hrun as _ <-].
      by eapply (Hrec q _ _ w' r eq_refl Hrun).
    + unfold ExpandMulti.__getitem__ in Hrun.
      case_decide; [by injection Hrun as _ <-|].
      destruct (post o) as [q|] eqn:Hq; cbn [option_map] in Hrun;
        [|by injection Hrun as _ <-].
      unfold bind at 1 in Hrun.
      destruct (Link.getitem fuel q _ _) as [r2 w2] eqn:Hrun2.
      pose proof (Hrec q _ _ w2 r2 eq_refl Hrun2 eq_refl) as Hw2.
      destruct r2 as [rep| |]; unfold lift in Hrun; by injection Hrun as _ <-.
    + by eapply Htemplate.
Qed.

Lemma chain_value_front (h : gmap loc (obj V)) (n : nat) (l : loc)
    (o : obj V) (k : Key) :
  h !! l = Some o -> o_cls o = CChainDict ->
  Link.chain_value h (S n) l k
  = match ChainDict._get (o_dict o) k with
    | Some v => Some v
    | None => match post o with
              | Some p => Link.chain_value h n p k
              | None => None
              end
    end.
Proof.
  intros Hl Hcls. cbn [Link.chain_value]. rewrite Hl, Hcls.
  unfold Link.local, Link._get_list. by rewrite Hcls.
Qed.

Lemma front_hit_run (fuel : nat) (w : world V) (l : loc) (o : obj V)
    (items : list Key) :
  heap w !! l = Some o -> o_cls o = CChainDict ->
  Forall is_Some (ChainDict._get_list (o_dict o) items) ->
  Link.getitem (S fuel) l items w
  = (Ok (ChainDict._get_list (o_dict o) items),
     {| heap := heap w; trace := trace w ++ [Getitem l items] |}).
Proof.
  intros Hl Hcls Hall. cbn [Link.getitem]. unfold bind at 1, record, modify.
  unfold bind at 1, deref. cbn [heap]. rewrite Hl, Hcls.
  unfold ChainDict.__getitem__, bind at 1, ret, Link._get_list. rewrite Hcls.
  rewrite (no_nones_of_resolved items _ Hall). by destruct (option_map _ (post o)).
Qed.

(** X6.  A get through a [ChainDict] link of a well-formed chain fills the
    link: afterwards the dict of the link holds, for every requested key,
    the value of the chain at that key.  So when every requested key has a
    value, a repeat of the get is answered by the link alone, with the same
    values, and enters no link behind it. *)
Theorem get_fills_the_front_link (n fuel : nat) (w : world V) (l : loc)
    (o : obj V) (items : list Key) :
  Link.chain_ok (heap w) n l ->
  n <= fuel ->
  heap w !! l = Some o ->
  o_cls o = CChainDict ->
  exists w' o',
    Link.getitem fuel l items w
    = (Ok (map (Link.chain_value (heap w) n l) items), w')
    /\ heap w' !! l = Some o'
    /\ o_cls o' = CChainDict
    /\ post o' = post o
    /\ (forall k, k ∈ items ->
          ChainDict._get (o_dict o') k = Link.chain_value (heap w) n l k)
    /\ (Forall is_Some (map (Link.chain_value (heap w) n l) items) ->
        forall fuel',
          Link.getitem (S fuel') l items w'
          = (Ok (map (Link.chain_value (heap w) n l) items),
             {| heap := heap w'; trace := trace w' ++ [Getitem l items] |})).
Proof.
  intros Hok Hfuel Hl Hcls.
  assert (forall (w' : world V) (o' : obj V),
            heap w' !! l = Some o' -> o_cls o' = CChainDict ->
            (forall k, k ∈ items ->
               ChainDict._get (o_dict o') k = Link.chain_value (heap w) n l k) ->
            Forall is_Some (map (Link.chain_value (heap w) n l) items) ->
            forall fuel',
              Link.getitem (S fuel') l items w'
              = (Ok (map (Link.chain_value (heap w) n l) items),
                 {| heap := heap w'; trace := trace w' ++ [Getitem l items] |}))
    as Hagain.
  { intros w' o' Hl' Hcls' Hd' Hall fuel'.
    assert (ChainDict._get_list (o_dict o') items
            = map (Link.chain_value (heap w) n l) items) as Heq
      by (apply map_ext_in; intros k Hk; by apply Hd', list_elem_of_In).
    rewrite <- Heq in Hall |- *. by apply front_hit_run. }
  destruct n as [|n]; [done|]. destruct fuel as [|fuel]; [lia|].
  assert (n <= fuel) as Hle by lia.
  pose proof Hok as (o0 & Hl0 & Hcls0). rewrite Hl in Hl0. injection Hl0 as <-.
  rewrite Hcls in Hcls0. destruct Hcls0 as [_ Hpost].
  set (w1 := {| heap := heap w; trace := trace w ++ [Getitem l items] |}).
  assert (Link.getitem (S fuel) l items w
          = ChainDict.__getitem__
              (fun its => ret (ChainDict._get_list (o_dict o) its))
              (option_map (Link.getitem fuel) (post o))
              (ChainDict._add_new l) items w1) as ->.
  { cbn [Link.getitem]. unfold bind at 1, record, modify.
    unfold bind at 1, deref. cbn [heap]. rewrite Hl, Hcls.
    unfold Link._get_list. by rewrite Hcls. }
  assert (map (Link.chain_value (heap w) (S n) l) items
          = map (fun k => match ChainDict._get (o_dict o) k with
                          | Some v => Some v
                          | None => match post o with
                                    | Some p => Link.chain_value (heap w) n p k
                                    | None => None
                                    end
                          end) items) as Hval
    by (apply map_ext; intros k; by apply chain_value_front).
  unfold ChainDict.__getitem__, bind at 1, ret, ChainDict._get_list.
  destruct (post o) as [p|] eqn:Hp; cbn [option_map].
  - case_decide as Hn.
    + assert (forall k, k ∈ items ->
                ChainDict._get (o_dict o) k = Link.chain_value (heap w) (S n) l k)
        as Hd.
      { intros k Hk. rewrite (chain_value_front _ _ _ o) by done.
        destruct (ChainDict._get (o_dict o) k) eqn:Hg; [done|]. exfalso.
        rewrite nones_of_map in Hn. apply length_zero_iff_nil in Hn.
        assert (k ∈ filter (fun k => ChainDict._get (o_dict o) k = None) items)
          as Hin by (apply list_elem_of_filter; done).
        rewrite Hn in Hin. by apply elem_of_nil in Hin. }
      assert (map (ChainDict._get (o_dict o)) items
              = map (Link.chain_value (heap w) (S n) l) items) as Hres
        by (apply map_ext_in; intros k Hk; by apply Hd, list_elem_of_In).
      exists w1, o. split; [by rewrite Hres|]. split; [done|]. split; [done|].
      split; [done|]. split; [done|]. intros Hall. by apply (Hagain w1 o).
    + destruct (getitem_total n fuel w1 p
                  (nones_of (zip items (map (ChainDict._get (o_dict o)) items)))
                  Hpost Hle) as (w2 & Hrun & _).
      assert (heap w2 !! l = Some o) as Hl2.
      { rewrite (getitem_frame fuel p _ w1 w2 _ l Hrun); [done|].
        by apply (front_not_behind (heap w) (S n) fuel l p o). }
      unfold bind at 1. rewrite Hrun.
      unfold bind at 1, ChainDict._add_new, bind at 1, deref. rewrite Hl2.
      unfold assign, modify, lift. cbn [heap w1]. rewrite replace_none_map.
      eexists _, _. split; [by rewrite Hval|]. cbn [heap].
      rewrite lookup_insert_eq.
      assert (forall k, k ∈ items ->
                ChainDict._get
                  (ChainDict._set_list (o_dict o)
                     (nones_of (zip items (map (ChainDict._get (o_dict o)) items)))
                     (map (Link.chain_value (heap w) n p)
                        (nones_of (zip items (map (ChainDict._get (o_dict o)) items)))))
                  k
                = Link.chain_value (heap w) (S n) l k) as Hd.
      { intros k Hk. rewrite get_after_set_list, last_value_map.
        rewrite (chain_value_front _ _ _ o), Hp by done.
        rewrite nones_of_map.
        destruct (decide (k ∈ filter _ items)) as [Hin|Hout].
        - apply list_elem_of_filter in Hin as [Hg _]. rewrite Hg.
          by destruct (Link.chain_value (heap w) n p k).
        - destruct (ChainDict._get (o_dict o) k) eqn:Hg; [done|].
          exfalso. apply Hout. by apply list_elem_of_filter. }
      split; [done|]. split; [done|]. split; [exact Hp|].
      split; [exact Hd|]. intros Hall fuel'.
      refine (Hagain _ (with_dict _ o) _ Hcls Hd Hall fuel').
      cbn [heap]. apply lookup_insert_eq.
  - assert (forall k, k ∈ items ->
              ChainDict._get (o_dict o) k = Link.chain_value (heap w) (S n) l k)
      as Hd.
    { intros k Hk. rewrite (chain_value_front _ _ _ o), Hp by done.
      by destruct (ChainDict._get (o_dict o) k). }
    assert (map (ChainDict._get (o_dict o)) items
            = map (Link.chain_value (heap w) (S n) l) items) as Hres
      by (apply map_ext_in; intros k Hk; by apply Hd, list_elem_of_In).
    exists w1, o. split; [by rewrite Hres|]. split; [done|]. split; [done|].
    split; [done|]. split; [done|]. intros Hall. by apply (Hagain w1 o).
Qed.

(** X7.  [ExpandSingle] in front of a well-formed chain answers a single
    key with the value of the chain at that key, never with an
    [IndexError], and a batch with the answer of the chain to the batch. *)
Theorem expand_single_unwraps (n fuel : nat) (w : world V) (p : loc)
    (k : Key) (items : list Key) :
  Link.chain_ok (heap w) n p ->
  n <= fuel ->
  (exists w',
     ExpandSingle.__getitem__ (Some (Link.getitem fuel p))
                              (ExpandSingle.Single k) w
     = (Ok (ExpandSingle.Value (Link.chain_value (heap w) n p k)), w'))
  /\ (exists w',
        ExpandSingle.__getitem__ (Some (Link.getitem fuel p))
                                 (ExpandSingle.Batch items) w
        = (Ok (ExpandSingle.Values
                 (map (Link.chain_value (heap w) n p) items)), w')).
Proof.
  intros Hok Hfuel. split.
  - destruct (getitem_total n fuel w p [k] Hok Hfuel) as (w' & Hrun & _).
    exists w'. cbn [ExpandSingle.__getitem__ ExpandSingle.first_of].
    unfold bind. by rewrite Hrun.
  - destruct (getitem_total n fuel w p items Hok Hfuel) as (w' & Hrun & _).
    exists w'. cbn [ExpandSingle.__getitem__]. unfold bind. by rewrite Hrun.
Qed.

Lemma setitem_run (fuel : nat) (w : world V) (l : loc) (o : obj V)
    (items : list Key) (values : list val) :
  heap w !! l = Some o -> o_cls o = CChainDict ->
  setitem (S fuel) l items values w
  = (Ok tt,
     {| heap := <[l := with_dict (ChainDict._set_list (o_dict o) items values) o]>
                  (heap w);
        trace := trace w |}).
Proof.
  intros Hl Hcls. cbn [setitem]. unfold bind at 1, deref. rewrite Hl, Hcls.
  unfold ChainDict._add_new, bind at 1, deref. by rewrite Hl.
Qed.

(** X8.  A set through a [Wrap] or an [ExpandMulti] link lands in the
    link behind it: the dict of the [ChainDict] link behind is the only thing
    that changes, and a get of the same keys on that link (distinct keys, no
    [None] among the values) returns the values that were set. *)
Theorem set_through_a_delegating_link (fuel fuel' : nat) (w : world V)
    (l p : loc) (o op : obj V) (items : list Key) (values : list val) :
  heap w !! l = Some o ->
  o_cls o = CWrap \/ o_cls o = CExpandMulti ->
  post o = Some p ->
  heap w !! p = Some op ->
  o_cls op = CChainDict ->
  NoDup items ->
  length values = length items ->
  Forall is_Some values ->
  (setitem (S (S fuel)) l items values ;;; Link.getitem (S fuel') p items) w
  = (Ok values,
     {| heap := <[p := with_dict (ChainDict._set_list (o_dict op) items values) op]>
                  (heap w);
        trace := trace w ++ [Getitem p items] |}).
Proof.
  intros Hl Hcls Hpost Hp Hclsp Hnd Hlen Hall.
  assert (setitem (S (S fuel)) l items values w
          = setitem (S fuel) p items values w) as Hdel.
  { change (setitem (S (S fuel)) l items values w)
      with ((o0 <- deref l ;;
             match o_cls o0 with
             | CChainDict | CFunction => ChainDict._add_new l items values
             | CWrap | CExpandMulti =>
                 match post o0 with
                 | Some p0 => setitem (S fuel) p0 items values
                 | None => raise TypeError
                 end
             end) w).
    unfold bind at 1, deref. rewrite Hl.
    destruct Hcls as [-> | ->]; by rewrite Hpost. }
  unfold bind at 1. rewrite Hdel, (setitem_run fuel w p op items values Hp Hclsp).
  rewrite (front_hit_run fuel' _ p
             (with_dict (ChainDict._set_list (o_dict op) items values) op) items).
  - cbn [o_dict with_dict heap trace].
    by rewrite (get_list_after_set_list _ _ _ Hnd Hlen Hall).
  - cbn [heap]. apply lookup_insert_eq.
  - done.
  - cbn [o_dict with_dict].
    by rewrite (get_list_after_set_list _ _ _ Hnd Hlen Hall).
Qed.

(** X9.  [+] does not associate: [L1 + (L2 + L3)] is [L1 + L3].  The inner
    sum returns [L3], and the outer one assigns [L3.post] again: the fallback
    of the result is [L1], not [L2], and [L2] is left as it was. *)
Theorem add_on_a_sum_drops_the_middle_link (w : world V) (L1 L2 L3 : loc)
    (o3 : obj V) :
  heap w !! L3 = Some o3 ->
  exists w',
    (x <- ChainDict.__add__ L2 L3 ;; ChainDict.__add__ L1 x) w = (Ok L3, w')
    /\ ChainDict.__add__ L1 L3 w = (Ok L3, w')
    /\ heap w' !! L3 = Some (with_post (Some L1) o3)
    /\ (L2 <> L3 -> heap w' !! L2 = heap w !! L2).
Proof.
  intros H3.
  exists {| heap := <[L3 := with_post (Some L1) o3]> (heap w);
            trace := trace w |}.
  split; [|split; [by apply add_run|]].
  - unfold bind. rewrite (add_run w L2 L3 o3 H3).
    rewrite (add_run _ L1 L3 (with_post (Some L2) o3))
      by (cbn [heap]; apply lookup_insert_eq).
    cbn [heap trace with_post o_cls o_dict _eval fnc_uses_lists].
    by rewrite insert_insert_eq.
  - cbn [heap]. split; [apply lookup_insert_eq|].
    intros Hne. by apply lookup_insert_ne.
Qed.
End Facts.
End ChainMore.

(** * Further properties of the stores *)

Module StoreMore.
Import Medium PyFacts StoreFacts.
Section Facts.
Context {V Med : Type}.
Local Abbreviation val := (option V).
Context (zero : V) (drv : driver V Med) (idx : Key -> gmap Handle Z).

Lemma load_list_pointwise (s : Store.state V) (e : ext V Med) (keys : list Z)
    (f : Z -> val) (m' : Med) :
  0 < length keys ->
  drv_get_list_value drv (Store.store s)
     (sorted snd (enumerate keys)).*2 (med e)
  = (Ok (f <$> (sorted snd (enumerate keys)).*2), m') ->
  Store._load_list zero drv keys (s, e)
  = (Ok (f <$> keys),
     (s, {| med := m';
            calls := calls e ++ [GetListValue (Store.store s)
                                   (sorted snd (enumerate keys)).*2] |})).
Proof.
  intros Hlen Hdrv.
  rewrite (load_list_run zero drv s e keys _ m' Hlen Hdrv). cbv beta iota.
  destruct (sorted_enumerate_facts keys) as (_ & Hperm2 & Hperm1 & Hpairs).
  set (keys_sorted := sorted snd (enumerate keys)) in *.
  assert (length keys_sorted = length keys) as Hlks.
  { rewrite <- (length_fmap snd keys_sorted). by rewrite Hperm2. }
  destruct (scatter_spec (f <$> keys_sorted.*2) (enumerate keys_sorted.*1)
              (times (Some zero) (length keys)))
    as (ret & Hrun & Hlret & Hset & _).
  { rewrite enumerate_snd, Hperm1. apply NoDup_seq. }
  { intros pos i Hin. apply elem_of_enumerate in Hin. split.
    - apply lookup_lt_is_Some. rewrite !length_fmap.
      apply lookup_lt_Some in Hin. by rewrite length_fmap in Hin.
    - unfold times. rewrite length_replicate.
      apply list_elem_of_lookup_2 in Hin. rewrite Hperm1 in Hin.
      apply elem_of_seq in Hin. lia. }
  rewrite Hrun. f_equal. f_equal. apply list_eq. intros i.
  destruct (decide (i < length keys)) as [Hi|Hi].
  - assert (i ∈ keys_sorted.*1) as Hin.
    { rewrite Hperm1. apply elem_of_seq. lia. }
    apply list_elem_of_lookup_1 in Hin as [pos Hpos].
    rewrite (Hset pos i) by by apply elem_of_enumerate.
    rewrite list_lookup_fmap in Hpos.
    destruct (keys_sorted !! pos) as [[i' off]|] eqn:Hks; [|done].
    cbn in Hpos. injection Hpos as ->.
    rewrite !list_lookup_fmap, Hks. by rewrite (Hpairs pos i off Hks).
  - rewrite !lookup_ge_None_2; [done| |].
    + rewrite length_fmap. lia.
    + rewrite Hlret. unfold times. rewrite length_replicate. lia.
Qed.

Lemma split_unbuffered (s : Store.state V) (e : ext V Med)
    (items : list Key) :
  (forall k, k ∈ items -> Store.data s !! k = None) ->
  Store._split_list_dict items (s, e)
  = (Ok (replicate (length items) None, items), (s, e)).
Proof.
  intros Hfree. unfold Store._split_list_dict, bind at 1, Store.self, gets.
  cbn [fst]. unfold bind at 1.
  assert (mapM (fun item =>
                  if decide (is_Some (Store.data s !! item))
                  then Store.subscript_key item else ret None) items (s, e)
          = (Ok (replicate (length items) None), (s, e))) as ->.
  { induction items as [|k items IH]; [done|]. cbn [mapM].
    unfold bind at 1.
    rewrite decide_False
      by (rewrite (Hfree k (list_elem_of_here _ _)); by intros [? ?]).
    unfold ret at 1. unfold bind at 1. rewrite IH; [done|].
    intros k' Hk'. by apply Hfree, list_elem_of_further. }
  unfold ret. f_equal. f_equal. f_equal.
  induction items as [|k items IH]; [done|]. rewrite filter_cons.
  rewrite decide_True
    by (rewrite (Hfree k (list_elem_of_here _ _)); by intros [? ?]).
  f_equal. apply IH. intros k' Hk'. by apply Hfree, list_elem_of_further.
Qed.

Lemma fill_some_map (f : Z -> val) (keys : list (option Z)) :
  Store.fill_some keys (f <$> omap id keys)
  = Ok (map (fun ko => match ko with Some off => f off | None => None end) keys).
Proof.
  induction keys as [|[off|] keys IH]; [done| |].
  - assert (omap id (Some off :: keys) = off :: omap id keys) as -> by done.
    rewrite fmap_cons. cbn [Store.fill_some map]. by rewrite IH.
  - assert (omap id (None :: keys) = omap id keys) as -> by done.
    cbn [Store.fill_some map]. by rewrite IH.
Qed.

Lemma replace_none_all (replace : list val) :
  replace_none (replicate (length replace) None) replace = Ok replace.
Proof.
  induction replace as [|x replace IH]; [done|]. cbn. by rewrite IH.
Qed.

Lemma omap_id_map {A B} (g : A -> option B) (l : list A) :
  omap id (map g l) = omap g l.
Proof.
  induction l as [|x l IH]; [done|]. cbn [map].
  change (omap id (g x :: map g l))
    with (match g x with Some y => y :: omap id (map g l) | None => omap id (map g l) end).
  change (omap g (x :: l))
    with (match g x with Some y => y :: omap g l | None => omap g l end).
  by rewrite IH.
Qed.

Lemma get_list_unbuffered (s : Store.state V) (e : ext V Med)
    (items : list Key) (f : Z -> val) (m' : Med) :
  (forall k, k ∈ items -> Store.data s !! k = None) ->
  let offsets := omap (Store._get_key idx s) items in
  match offsets with
  | [] => m' = med e
  | _ :: _ =>
      drv_get_list_value drv (Store.store s)
         (sorted snd (enumerate offsets)).*2 (med e)
      = (Ok (f <$> (sorted snd (enumerate offsets)).*2), m')
  end ->
  Store._get_list zero drv idx items (s, e)
  = (Ok (map (fun k => match Store._get_key idx s k with
                       | Some off => f off
                       | None => None
                       end) items),
     (s, {| med := m';
            calls := calls e
                       ++ match offsets with
                          | [] => []
                          | _ :: _ =>
                              [GetListValue (Store.store s)
                                 (sorted snd (enumerate offsets)).*2]
                          end |})).
Proof.
  cbv zeta. intros Hfree Hdrv.
  unfold Store._get_list, bind at 1. rewrite (split_unbuffered s e items Hfree).
  unfold bind at 1, Store.self, gets. cbn [fst snd].
  unfold bind at 1, Store._apply_some_list, bind at 1.
  rewrite omap_id_map.
  assert (Store._load_list zero drv (omap (Store._get_key idx s) items) (s, e)
          = (Ok (f <$> omap (Store._get_key idx s) items),
             (s, {| med := m';
                    calls := calls e
                      ++ match omap (Store._get_key idx s) items with
                         | [] => []
                         | _ :: _ =>
                             [GetListValue (Store.store s)
                                (sorted snd (enumerate
                                   (omap (Store._get_key idx s) items))).*2]
                         end |}))) as ->.
  { destruct (omap (Store._get_key idx s) items) as [|off offs] eqn:Hoffs.
    - subst m'. unfold Store._load_list. rewrite decide_False by (cbn; lia).
      unfold ret. rewrite app_nil_r. by destruct e.
    - apply load_list_pointwise; [cbn; lia|done]. }
  unfold lift. rewrite <- (omap_id_map (Store._get_key idx s) items), fill_some_map.
  rewrite omap_id_map.
  set (answers := map _ (map (Store._get_key idx s) items)).
  assert (length items = length answers) as ->
    by (unfold answers; by rewrite !length_map).
  rewrite replace_none_all. unfold answers. by rewrite map_map.
Qed.

(** X10.  A batch get on a [Store] none of whose requested keys is in the
    write buffer resolves each key to its offset for [self.store], makes at
    most one call to the medium, with the offsets that exist sorted in
    ascending order, and, when the medium answers offset by offset, returns
    the values in the order of the request, [None] at the keys without an
    offset.  When no key has an offset the medium is not called. *)
Theorem store_get_in_request_order (s : Store.state V) (e : ext V Med)
    (items : list Key) (f : Z -> val) (m' : Med) :
  (forall k, k ∈ items -> Store.data s !! k = None) ->
  let offsets := omap (Store._get_key idx s) items in
  match offsets with
  | [] => m' = med e
  | _ :: _ =>
      drv_get_list_value drv (Store.store s)
         (sorted snd (enumerate offsets)).*2 (med e)
      = (Ok (f <$> (sorted snd (enumerate offsets)).*2), m')
  end ->
  Store.__getitem__ zero drv idx None items (s, e)
  = (Ok (map (fun k => match Store._get_key idx s k with
                       | Some off => f off
                       | None => None
                       end) items),
     (s, {| med := m';
            calls := calls e
                       ++ match offsets with
                          | [] => []
                          | _ :: _ =>
                              [GetListValue (Store.store s)
                                 (sorted snd (enumerate offsets)).*2]
                          end |}))
  /\ Sorted Z.le (sorted snd (enumerate offsets)).*2
  /\ (sorted snd (enumerate offsets)).*2 ≡ₚ offsets.
Proof.
  cbv zeta. intros Hfree Hdrv.
  destruct (sorted_enumerate_facts (omap (Store._get_key idx s) items))
    as (Hsorted & Hperm & _).
  split; [|done].
  unfold Store.__getitem__, ChainDict.__getitem__, bind at 1.
  by rewrite (get_list_unbuffered s e items f m' Hfree Hdrv).
Qed.

(** X11.  With a [max_save_buffer_size], the write buffer holds at most
    that many entries when [_add_new] returns normally (none, if the limit is
    negative): if the insertion takes it over the limit, the buffer is
    flushed and emptied. *)
Theorem add_new_keeps_buffer_within_limit (s s' : Store.state V)
    (e e' : ext V Med) (items : list Key) (values : list val) (limit : Z) :
  Store.max_save_buffer_size s = Some limit ->
  Store._add_new drv idx items values (s, e) = (Ok tt, (s', e')) ->
  (Z.of_nat (size (Store.data s')) <= Z.max limit 0)%Z
  /\ ((limit < Z.of_nat (size (foldl (fun d p => <[fst p := snd p]> d)
                                  (Store.data s) (zip items values))))%Z ->
      Store.data s' = ∅).
Proof.
  intros Hmax Hrun. unfold Store._add_new, bind at 1, Store.self, gets in Hrun.
  cbn [fst] in Hrun. unfold bind at 1, Store.set_data, modify in Hrun.
  cbn [fst snd] in Hrun. unfold bind at 1 in Hrun.
  cbn [fst Store.with_data Store.max_save_buffer_size Store.data] in Hrun.
  rewrite Hmax in Hrun.
  set (d := foldl _ (Store.data s) (zip items values)) in *.
  destruct (decide (limit < Z.of_nat (size d))%Z) as [Hover|Hfits].
  - unfold Store.sync, bind at 1, Store.self, gets in Hrun. cbn [fst] in Hrun.
    assert (Store.data s' = ∅) as Hempty.
    { case_decide.
      - unfold bind at 1, set_list_value in Hrun. cbn [fst snd] in Hrun.
        destruct (drv_set_list_value drv _ _ _ _) as [[[]| |] m2]; [|done|done].
        unfold Store.set_data, modify in Hrun. by injection Hrun as <- _.
      - unfold Store.set_data, modify in Hrun. by injection Hrun as <- _. }
    split; [|done]. rewrite Hempty, map_size_empty. lia.
  - unfold ret in Hrun. injection Hrun as <- _. split; [cbn; lia|done].
Qed.

Lemma miss_loop_keeps_world (s : Store.state V) (items : list Key) :
  forall (w w' : Store.state V * ext V Med) (r : result (list val)),
  mapM (fun item =>
          if decide (is_Some (Store.data s !! item))
          then Store.subscript_key item else ret None) items w = (r, w') ->
  w' = w.
Proof.
  induction items as [|k items IH]; intros w w' r Hrun.
  - by injection Hrun as _ <-.
  - cbn [mapM] in Hrun. unfold bind at 1 in Hrun.
    case_decide.
    + by injection Hrun as _ <-.
    + unfold ret at 1 in Hrun. unfold bind at 1 in Hrun.
      destruct (mapM _ items w) as [r2 w2] eqn:Hrest.
      apply IH in Hrest as ->. destruct r2; by injection Hrun as _ <-.
Qed.

Lemma store_get_keeps_state (s s' : Store.state V) (e e' : ext V Med)
    (items : list Key) (r : result (list val)) :
  Store.__getitem__ zero drv idx None items (s, e) = (r, (s', e')) -> s' = s.
Proof.
  unfold Store.__getitem__, ChainDict.__getitem__, bind at 1. intros Hrun.
  assert (forall r2 w2, Store._get_list zero drv idx items (s, e) = (r2, w2) ->
                        fst w2 = s) as Hget.
  { clear. intros r2 w2 Hrun. unfold Store._get_list, bind at 1 in Hrun.
    unfold Store._split_list_dict, bind at 1, Store.self, gets in Hrun.
    cbn [fst] in Hrun. unfold bind at 1 in Hrun.
    destruct (mapM _ items (s, e)) as [r3 w3] eqn:Hloop.
    apply miss_loop_keeps_world in Hloop as ->.
    destruct r3 as [nones| |]; [|by injection Hrun as _ <-|by injection Hrun as _ <-].
    unfold ret at 1 in Hrun. unfold bind at 1 in Hrun. cbn [fst snd] in Hrun.
    unfold bind at 1, Store._apply_some_list, bind at 1 in Hrun.
    unfold Store._load_list in Hrun. case_decide.
    - unfold bind at 1, Store.self, gets in Hrun. cbn [fst] in Hrun.
      unfold bind at 1, get_list_value in Hrun. cbn [fst snd] in Hrun.
      destruct (drv_get_list_value drv _ _ _) as [r4 m4].
      destruct r4 as [vs| |]; unfold lift in Hrun;
        [|by injection Hrun as _ <-|by injection Hrun as _ <-].
      destruct (Store.scatter _ _ _); [|by injection Hrun as _ <-|by injection Hrun as _ <-].
      destruct (Store.fill_some _ _); by injection Hrun as _ <-.
    - unfold ret, lift in Hrun.
      destruct (Store.fill_some _ _); by injection Hrun as _ <-. }
  destruct (Store._get_list zero drv idx items (s, e)) as [r2 [s2 e2]] eqn:Hg.
  pose proof (Hget _ _ eq_refl) as Hs. cbn in Hs. subst s2.
  destruct r2; unfold ret in Hrun; by injection Hrun as _ <- _.
Qed.

Lemma buffered_get_run (b : BufferedStore.state V) (e : ext V Med)
    (items : list Key) :
  BufferedStore.__getitem__ zero drv idx items (b, e)
  = let results := ChainDict._get_list (BufferedStore._cache b) items in
    let nones := nones_of (zip items results) in
    if decide (length nones = 0) then (Ok results, (b, e))
    else
      match Store.__getitem__ zero drv idx None nones
              (BufferedStore._store b, e) with
      | (Ok rep, (s', e')) =>
          (replace_none (zip items results).*2 rep,
           (BufferedStore.with_cache
              (ChainDict._set_list (BufferedStore._cache b) nones rep)
              (BufferedStore.with_store s' b), e'))
      | (Raise x, (s', e')) => (Raise x, (BufferedStore.with_store s' b, e'))
      | (Stuck, (s', e')) => (Stuck, (BufferedStore.with_store s' b, e'))
      end.
Proof.
  unfold BufferedStore.__getitem__, Wrap.__getitem__, ChainDict.__getitem__.
  unfold bind at 1. unfold bind at 1, BufferedStore.self, gets. cbn [fst].
  unfold ret at 1. cbv zeta. case_decide; [done|].
  unfold bind at 1, BufferedStore.on_store, zoom. cbn [fst snd].
  destruct (Store.__getitem__ zero drv idx None _ _) as [r [s' e']].
  destruct r as [rep| |]; [|done|done].
  unfold bind at 1, BufferedStore.cache_add_new, bind at 1, gets.
  cbn [fst]. unfold BufferedStore.set_cache, modify, lift. cbn [fst snd].
  done.
Qed.

Lemma set_list_keeps_values (d : gmap Key val) (items : list Key)
    (values : list val) (k : Key) :
  (exists v, d !! k = Some (Some v)) ->
  exists v, ChainDict._set_list d items values !! k = Some (Some v).
Proof.
  intros [v Hv].
  pose proof (ChainMore.get_after_set_list d items values k) as Hget.
  unfold ChainDict._get in Hget. rewrite Hv in Hget.
  destruct (ChainDict._set_list d items values !! k) as [x|]; subst.
  - destruct (Assign.last_value k (zip items values)); by eexists.
  - by destruct (Assign.last_value k (zip items values)).
Qed.

Lemma add_one_run (b : BufferedStore.state V) (e : ext V Med) (k : Key)
    (x : val) :
  BufferedStore.add_one idx k x (b, e)
  = (Ok tt,
     (match x with
      | Some v =>
          if decide (0 < size (idx k)
                     /\ is_Some (idx k !! BufferedStore.content_store b))
          then BufferedStore.with_store
                 (Store.with_data
                    (<[k := Some v]> (Store.data (BufferedStore._store b)))
                    (BufferedStore._store b))
                 (BufferedStore.with_cache
                    (<[k := Some v]> (BufferedStore._cache b)) b)
          else b
      | None => b
      end, e)).
Proof.
  unfold BufferedStore.add_one. destruct x as [v|]; [|done].
  unfold bind at 1, BufferedStore.self, gets. cbn [fst].
  case_decide; [|done]. by destruct b.
Qed.

Lemma add_one_covered (b : BufferedStore.state V) (e : ext V Med) (k : Key)
    (x : val) :
  Buffered.covered b ->
  Buffered.covered (fst (snd (BufferedStore.add_one idx k x (b, e)))).
Proof.
  intros Hcov. rewrite add_one_run. cbn [fst snd].
  destruct x as [v|]; [|done]. case_decide; [|done].
  intros k' Hk'. cbn in Hk' |- *.
  destruct (decide (k = k')) as [->|Hne].
  - rewrite lookup_insert_eq. by eexists.
  - rewrite lookup_insert_ne in Hk' |- * by done. by apply Hcov.
Qed.

Lemma buffered_add_new_run (items : list Key) (values : list val) :
  forall (b : BufferedStore.state V) (e : ext V Med),
  exists b',
    BufferedStore._add_new idx items values (b, e) = (Ok tt, (b', e))
    /\ (Buffered.covered b -> Buffered.covered b').
Proof.
  unfold BufferedStore._add_new. generalize (zip items values) as ps.
  induction ps as [|[k x] ps IH]; intros b e.
  - exists b. done.
  - cbn [foldM fst snd]. unfold bind at 1.
    pose proof (add_one_covered b e k x) as Hcov.
    rewrite add_one_run in Hcov |- *. cbn [fst snd] in Hcov.
    set (b1 := match x with Some _ => _ | None => b end) in *.
    destruct (IH b1 e) as (b' & Hrun & Hcov'). exists b'. split; [done|].
    intros Hb. by apply Hcov', Hcov.
Qed.

(** X12.  [BufferedStore] keeps every key of the write buffer of its store
    covered by a value in its cache, through [_add_new], [sync] and a get,
    however they end.  A get therefore never forwards a buffered key to the
    store. *)
Theorem buffered_keys_stay_cached (b : BufferedStore.state V)
    (e : ext V Med) :
  Buffered.covered b ->
  (forall items values r b' e',
     BufferedStore._add_new idx items values (b, e) = (r, (b', e')) ->
     Buffered.covered b')
  /\ (forall r b' e',
        BufferedStore.sync drv idx (b, e) = (r, (b', e')) ->
        Buffered.covered b')
  /\ (forall items r b' e',
        BufferedStore.__getitem__ zero drv idx items (b, e) = (r, (b', e')) ->
        Buffered.covered b'
        /\ forall k,
             k ∈ nones_of (zip items
                             (ChainDict._get_list (BufferedStore._cache b) items)) ->
             Store.data (BufferedStore._store b) !! k = None).
Proof.
  intros Hcov. split; [|split].
  - intros items values r b' e' Hrun.
    destruct (buffered_add_new_run items values b e) as (b1 & Hrun1 & Hcov1).
    rewrite Hrun1 in Hrun. injection Hrun as _ <- _. by apply Hcov1.
  - intros r b' e' Hrun. unfold BufferedStore.sync, BufferedStore.on_store, zoom in Hrun.
    cbn [fst snd] in Hrun.
    destruct (Store.sync drv idx (BufferedStore._store b, e)) as [r1 [s1 e1]] eqn:Hs.
    injection Hrun as _ <- _.
    assert (s1 = BufferedStore._store b \/ Store.data s1 = ∅) as Hs1.
    { unfold Store.sync, bind at 1, Store.self, gets in Hs. cbn [fst] in Hs.
      case_decide.
      - unfold bind at 1, set_list_value in Hs. cbn [fst snd] in Hs.
        destruct (drv_set_list_value drv _ _ _ _) as [[[]| |] m2].
        + unfold Store.set_data, modify in Hs. injection Hs as _ <- _. by right.
        + injection Hs as _ <- _. by left.
        + injection Hs as _ <- _. by left.
      - unfold Store.set_data, modify in Hs. injection Hs as _ <- _. by right. }
    intros k Hk. cbn in Hk |- *. destruct Hs1 as [->|Hempty].
    + by apply Hcov.
    + rewrite Hempty, lookup_empty in Hk. by destruct Hk.
  - intros items r b' e' Hrun.
    assert (forall k,
              k ∈ nones_of (zip items
                              (ChainDict._get_list (BufferedStore._cache b) items)) ->
              Store.data (BufferedStore._store b) !! k = None) as Hfree.
    { intros k Hk. unfold ChainDict._get_list in Hk.
      rewrite ChainFacts.nones_of_map in Hk.
      apply list_elem_of_filter in Hk as [Hg _].
      destruct (Store.data (BufferedStore._store b) !! k) as [x|] eqn:Hd; [|done].
      destruct (Hcov k) as [v Hv]; [by eexists|].
      unfold ChainDict._get in Hg. by rewrite Hv in Hg. }
    split; [|done]. rewrite buffered_get_run in Hrun. cbv zeta in Hrun.
    case_decide; [by injection Hrun as _ <- _|].
    destruct (Store.__getitem__ zero drv idx None _ _) as [r1 [s1 e1]] eqn:Hs.
    apply store_get_keeps_state in Hs as ->.
    assert (BufferedStore.with_store (BufferedStore._store b) b = b) as Hb
      by by destruct b.
    rewrite Hb in Hrun.
    destruct r1 as [rep| |]; [|by injection Hrun as _ <- _|by injection Hrun as _ <- _].
    injection Hrun as _ <- _. intros k Hk. cbn in Hk |- *.
    by apply set_list_keeps_values, Hcov.
Qed.

Lemma buffered_hit_run (b : BufferedStore.state V) (e : ext V Med)
    (items : list Key) :
  Forall is_Some (ChainDict._get_list (BufferedStore._cache b) items) ->
  BufferedStore.__getitem__ zero drv idx items (b, e)
  = (Ok (ChainDict._get_list (BufferedStore._cache b) items), (b, e)).
Proof.
  intros Hall. rewrite buffered_get_run. cbv zeta.
  by rewrite (ChainFacts.no_nones_of_resolved items _ Hall), decide_True.
Qed.

(** X13.  A get on a [BufferedStore] whose buffered keys are covered by the
    cache answers the keys the cache has from the cache, loads the others in
    one sorted call to the medium (none if no missing key has an offset) and
    puts the loaded values into the cache; the store is left as it was.  When
    every requested key got a value, a repeat of the get returns the same
    values without a call to the medium and without a change of state. *)
Theorem buffered_get_loads_once (b : BufferedStore.state V) (e : ext V Med)
    (items : list Key) (f : Z -> val) (m' : Med) :
  Buffered.covered b ->
  let cache := BufferedStore._cache b in
  let s := BufferedStore._store b in
  let nones := nones_of (zip items (ChainDict._get_list cache items)) in
  let offsets := omap (Store._get_key idx s) nones in
  match offsets with
  | [] => m' = med e
  | _ :: _ =>
      drv_get_list_value drv (Store.store s)
         (sorted snd (enumerate offsets)).*2 (med e)
      = (Ok (f <$> (sorted snd (enumerate offsets)).*2), m')
  end ->
  let vs := map (fun k => match ChainDict._get cache k with
                          | Some v => Some v
                          | None => match Store._get_key idx s k with
                                    | Some off => f off
                                    | None => None
                                    end
                          end) items in
  let e1 := {| med := m';
               calls := calls e
                          ++ match offsets with
                             | [] => []
                             | _ :: _ =>
                                 [GetListValue (Store.store s)
                                    (sorted snd (enumerate offsets)).*2]
                             end |} in
  exists b',
    BufferedStore.__getitem__ zero drv idx items (b, e) = (Ok vs, (b', e1))
    /\ BufferedStore._store b' = s
    /\ (forall k, k ∈ items ->
          ChainDict._get (BufferedStore._cache b') k
          = match ChainDict._get cache k with
            | Some v => Some v
            | None => match Store._get_key idx s k with
                      | Some off => f off
                      | None => None
                      end
            end)
    /\ (Forall is_Some vs ->
        BufferedStore.__getitem__ zero drv idx items (b', e1)
        = (Ok vs, (b', e1))).
Proof.
  cbv zeta. intros Hcov Hdrv.
  set (cache := BufferedStore._cache b) in *.
  set (s := BufferedStore._store b) in *.
  set (loaded := fun k => match Store._get_key idx s k with
                          | Some off => f off
                          | None => None
                          end).
  set (nones := nones_of (zip items (ChainDict._get_list cache items))) in *.
  assert (forall (b' : BufferedStore.state V) e1,
            (forall k, k ∈ items ->
               ChainDict._get (BufferedStore._cache b') k
               = match ChainDict._get cache k with
                 | Some v => Some v
                 | None => loaded k
                 end) ->
            Forall is_Some (map (fun k => match ChainDict._get cache k with
                                          | Some v => Some v
                                          | None => loaded k
                                          end) items) ->
            BufferedStore.__getitem__ zero drv idx items (b', e1)
            = (Ok (map (fun k => match ChainDict._get cache k with
                                 | Some v => Some v
                                 | None => loaded k
                                 end) items), (b', e1))) as Hagain.
  { intros b' e1 Hd Hall.
    assert (ChainDict._get_list (BufferedStore._cache b') items
            = map (fun k => match ChainDict._get cache k with
                            | Some v => Some v
                            | None => loaded k
                            end) items) as Heq
      by (apply map_ext_in; intros k Hk; by apply Hd, list_elem_of_In).
    rewrite <- Heq in Hall |- *. by apply buffered_hit_run. }
  rewrite buffered_get_run. cbv zeta. fold cache s nones.
  destruct (decide (length nones = 0)) as [Hn|Hn].
  - assert (nones = []) as Hnil by by apply length_zero_iff_nil.
    rewrite Hnil in Hdrv |- *. cbn [omap list_omap] in Hdrv |- *. subst m'.
    assert (forall k, k ∈ items ->
              ChainDict._get cache k
              = match ChainDict._get cache k with
                | Some v => Some v
                | None => loaded k
                end) as Hd.
    { intros k Hk. destruct (ChainDict._get cache k) eqn:Hg; [done|]. exfalso.
      unfold nones, ChainDict._get_list in Hnil.
      rewrite ChainFacts.nones_of_map in Hnil.
      assert (k ∈ filter (fun k => ChainDict._get cache k = None) items) as Hin
        by by apply list_elem_of_filter.
      rewrite Hnil in Hin. by apply elem_of_nil in Hin. }
    assert (ChainDict._get_list cache items
            = map (fun k => match ChainDict._get cache k with
                            | Some v => Some v
                            | None => loaded k
                            end) items) as Hres
      by (apply map_ext_in; intros k Hk; by apply Hd, list_elem_of_In).
    exists b. rewrite app_nil_r.
    assert ({| med := med e; calls := calls e |} = e) as -> by by destruct e.
    split; [by rewrite Hres|]. split; [done|]. split; [exact Hd|].
    intros Hall. by apply Hagain.
  - assert (forall k, k ∈ nones -> Store.data s !! k = None) as Hfree.
    { intros k Hk. unfold nones, ChainDict._get_list in Hk.
      rewrite ChainFacts.nones_of_map in Hk.
      apply list_elem_of_filter in Hk as [Hg _].
      destruct (Store.data s !! k) as [x|] eqn:Hd; [|done].
      destruct (Hcov k) as [v Hv]; [by eexists|].
      unfold ChainDict._get in Hg. fold cache in Hv. by rewrite Hv in Hg. }
    unfold Store.__getitem__, ChainDict.__getitem__, bind at 1.
    rewrite (get_list_unbuffered s e nones f m' Hfree Hdrv). unfold ret.
    assert (BufferedStore.with_store s b = b) as -> by by destruct b.
    unfold nones, ChainDict._get_list. rewrite ChainFacts.replace_none_map.
    eexists. split; [done|]. split; [done|].
    assert (forall k, k ∈ items ->
              ChainDict._get
                (ChainDict._set_list cache nones (map loaded nones)) k
              = match ChainDict._get cache k with
                | Some v => Some v
                | None => loaded k
                end) as Hd.
    { intros k Hk.
      rewrite ChainMore.get_after_set_list, ChainMore.last_value_map.
      unfold nones, ChainDict._get_list. rewrite ChainFacts.nones_of_map.
      destruct (decide (k ∈ filter _ items)) as [Hin|Hout].
      - apply list_elem_of_filter in Hin as [Hg _]. rewrite Hg.
        by destruct (loaded k).
      - destruct (ChainDict._get cache k) eqn:Hg; [done|].
        exfalso. apply Hout. by apply list_elem_of_filter. }
    split; [exact Hd|]. intros Hall. by apply Hagain.
Qed.

(** X14.  What is filled back into a [BufferedStore] reaches the medium at
    the next [sync] and stays readable: for a key with an offset for the
    content store and an empty write buffer, [_add_new] followed by [sync]
    makes one [set_list_value] call with that offset and value and empties
    the buffer, and a get of the key afterwards returns the value from the
    cache without a call to the medium. *)
Theorem add_new_sync_get_round_trip (b : BufferedStore.state V)
    (e : ext V Med) (k : Key) (off : Z) (v : V) (m' : Med) :
  BufferedStore.content_store b
  = Store.content_store (BufferedStore._store b) ->
  Store.data (BufferedStore._store b) = ∅ ->
  idx k !! BufferedStore.content_store b = Some off ->
  drv_set_list_value drv (Store.store (BufferedStore._store b)) [off] [Some v]
                     (med e) = (Ok tt, m') ->
  (BufferedStore._add_new idx [k] [Some v] ;;;
   BufferedStore.sync drv idx ;;;
   BufferedStore.__getitem__ zero drv idx [k]) (b, e)
  = (Ok [Some v],
     (BufferedStore.with_store
        (Store.with_data ∅ (BufferedStore._store b))
        (BufferedStore.with_cache (<[k := Some v]> (BufferedStore._cache b)) b),
      {| med := m';
         calls := calls e
                    ++ [SetListValue (Store.store (BufferedStore._store b))
                          [off] [Some v]] |})).
Proof.
  intros Hcs Hempty Hoff Hdrv. unfold bind at 1.
  rewrite buffered_add_one_run, Hoff. unfold bind at 1.
  unfold BufferedStore.sync, BufferedStore.on_store, zoom. cbn [fst snd].
  cbn [BufferedStore._store BufferedStore.with_store BufferedStore.with_cache].
  rewrite Hempty.
  assert (Store.sync drv idx
            (Store.with_data (<[k := Some v]> ∅) (BufferedStore._store b), e)
          = (Ok tt,
             (Store.with_data ∅ (BufferedStore._store b),
              {| med := m';
                 calls := calls e
                   ++ [SetListValue (Store.store (BufferedStore._store b))
                         [off] [Some v]] |}))) as ->.
  { unfold Store.sync, bind at 1, Store.self, gets. cbn [fst].
    change (<[k := Some v]> (∅ : gmap Key val)) with ({[k := Some v]} : gmap Key val).
    rewrite storable_singleton, <- Hcs, Hoff.
    rewrite decide_True by (cbn; lia). cbn [sorted sorted_insert fmap list_fmap fst snd].
    unfold bind at 1, set_list_value. cbn [fst snd Store.store Store.with_data].
    rewrite Hdrv. done. }
  rewrite buffered_hit_run.
  - cbn. unfold ChainDict._get. by rewrite lookup_insert_eq.
  - cbn. unfold ChainDict._get. rewrite lookup_insert_eq.
    constructor; [by eexists|constructor].
Qed.

(** X15.  [_apply_some_list] answers with one value per item: [None] where
    the item is [None], and the results of [func] on the other items, in
    their order; this is what [fill_some] computes from the results.  It
    returns normally exactly when there are at least as many results as items
    that are not [None], and raises [StopIteration] otherwise. *)
Theorem fill_some_outcome (items : list (option Z)) (replace : list val) :
  match Store.fill_some items replace with
  | Ok r =>
      length (omap id items) <= length replace
      /\ length r = length items
      /\ (forall i, items !! i = Some None -> r !! i = Some None)
      /\ omap (fun p => match fst p with Some _ => Some (snd p) | None => None end)
              (zip items r)
         = take (length (omap id items)) replace
  | Raise x => x = StopIteration /\ length replace < length (omap id items)
  | Stuck => False
  end.
Proof.
  revert replace. induction items as [|[off|] items IH]; intros replace.
  - cbn. split; [lia|]. split; [done|]. split; [done|]. by rewrite take_0.
  - assert (omap id (Some off :: items) = off :: omap id items) as -> by done.
    cbn [Store.fill_some]. destruct replace as [|x replace]; [cbn; split; [done|lia]|].
    specialize (IH replace).
    destruct (Store.fill_some items replace) as [r| |]; [|cbn in *; split; [tauto|lia]|done].
    destruct IH as (Hc & Hl & Hn & Hv). split; [cbn; lia|]. split; [cbn; lia|].
    split; [intros [|i] Hi; cbn in *; [done|by apply Hn]|].
    cbn [zip_with length take]. 
    change (omap ?g ((Some off, x) :: ?l)) with (x :: omap g l).
    by rewrite Hv.
  - assert (omap id (None :: items) = omap id items) as -> by done.
    cbn [Store.fill_some]. specialize (IH replace).
    destruct (Store.fill_some items replace) as [r| |]; [|done|done].
    destruct IH as (Hc & Hl & Hn & Hv). split; [done|]. split; [cbn; lia|].
    split; [intros [|i] Hi; cbn in *; [done|by apply Hn]|].
    cbn [zip_with].
    change (omap ?g ((@None Z, @None V) :: ?l)) with (omap g l).
    done.
Qed.


(** X17.  A get on a [Store] for a batch with a key of its own write buffer
    raises [TypeError] and changes nothing: the subscript [dct[item]] of
    [_split_list_dict] re-enters the [__getitem__] of the store with the bare
    key.  The medium is not called. *)
Theorem get_of_a_buffered_key_raises (s : Store.state V) (e : ext V Med)
    (post : option (list Key -> M (Store.state V * ext V Med) (list val)))
    (items : list Key) (k : Key) :
  k ∈ items ->
  is_Some (Store.data s !! k) ->
  Store.__getitem__ zero drv idx post items (s, e) = (Raise TypeError, (s, e)).
Proof.
  intros Hin Hk. unfold Store.__getitem__, ChainDict.__getitem__, bind at 1.
  unfold Store._get_list, bind at 1, Store._split_list_dict.
  unfold bind at 1, Store.self, gets. cbn [fst]. unfold bind at 1.
  assert (mapM (fun item =>
                  if decide (is_Some (Store.data s !! item))
                  then Store.subscript_key item else ret None) items (s, e)
          = (Raise TypeError, (s, e))) as ->; [|done].
  induction items as [|k0 items IH]; [by apply elem_of_nil in Hin|].
  cbn [mapM]. unfold bind at 1. case_decide as Hk0; [done|].
  unfold ret at 1. unfold bind at 1.
  apply elem_of_cons in Hin as [->|Hin]; [done|]. by rewrite IH.
Qed.
End Facts.
End StoreMore.

(** * Further properties of the fan-out store *)

Module MultiStoreMore.
Import Medium MultiStoreFacts.
Section Facts.
Context {V Med : Type}.
Local Abbreviation val := (option V).
Context (zero : V) (drv : driver V Med) (idx : Key -> gmap Handle Z)
        (content_store_of : Handle -> Handle)
        (scope_idx : option (gmap Handle Z)).
Local Abbreviation W := (MultiStore.state V * ext V Med)%type.

Lemma stores_refreshed (m : MultiStore.state V) (e : ext V Med)
    (sidx : gmap Handle Z) :
  scope_idx = Some sidx ->
  (size sidx = length (MultiStore._stores m) ->
   MultiStore._stores m = (map_to_list sidx).*1) ->
  MultiStore.stores scope_idx (m, e)
  = (Ok (map_to_list sidx).*1,
     (MultiStore.with_stores (map_to_list sidx).*1 m, e)).
Proof.
  intros -> Hfresh. unfold MultiStore.stores, bind at 1, MultiStore.self, gets.
  cbn [fst]. case_decide as Hsize.
  - done.
  - rewrite <- (Hfresh Hsize). unfold ret, bind. cbn [fst].
    by destruct m.
Qed.

Lemma removal_loop_idle (e : ext V Med) (sidx : gmap Handle Z) (n0 : nat)
    (ks : list Handle) :
  scope_idx = Some sidx ->
  (forall k, k ∈ ks -> k ∈ (map_to_list sidx).*1) ->
  forall m : MultiStore.state V,
  (size sidx = length (MultiStore._stores m) ->
   MultiStore._stores m = (map_to_list sidx).*1) ->
  size (MultiStore.cod_stores m) = n0 ->
  exists m',
    dict_for (fun w : W => size (MultiStore.cod_stores (fst w))) n0 ks
      (fun store _ =>
         ss <- MultiStore.stores scope_idx ;;
         if decide (store ∉ ss) then
           m <- MultiStore.self ;;
           MultiStore.set_cod_stores (delete store (MultiStore.cod_stores m))
         else ret tt) tt (m, e)
    = (Ok tt, (m', e))
    /\ MultiStore.cod_stores m' = MultiStore.cod_stores m
    /\ (size sidx = length (MultiStore._stores m') ->
        MultiStore._stores m' = (map_to_list sidx).*1).
Proof.
  intros Hscope. induction ks as [|k ks IH]; intros Hks m Hfresh Hsize.
  - exists m. cbn [dict_for]. unfold bind, gets. cbn [fst].
    by rewrite decide_True.
  - cbn [dict_for]. unfold bind at 1, gets. cbn [fst].
    rewrite decide_True by done. unfold bind at 1. unfold bind at 1.
    rewrite (stores_refreshed m e sidx Hscope Hfresh).
    rewrite decide_False
      by (intros Hout; apply Hout, Hks, list_elem_of_here).
    unfold ret at 1.
    destruct (IH (fun k' Hk' => Hks k' (list_elem_of_further _ _ _ Hk'))
                 (MultiStore.with_stores (map_to_list sidx).*1 m))
      as (m' & Hrun & Hcod & Hfresh'); [done|done|].
    exists m'. by rewrite Hrun.
Qed.

Lemma addition_loop_run (e : ext V Med) (ks : list Handle) :
  forall m : MultiStore.state V,
  exists m',
    foldM (fun store _ =>
             m <- MultiStore.self ;;
             if decide (¬ is_Some (MultiStore.cod_stores m !! store))
             then MultiStore.add_nod_store content_store_of store
             else ret tt) ks tt (m, e)
    = (Ok tt, (m', e))
    /\ MultiStore._stores m' = MultiStore._stores m
    /\ forall d,
         MultiStore.cod_stores m' !! d
         = match MultiStore.cod_stores m !! d with
           | Some b => Some b
           | None =>
               if decide (d ∈ ks)
               then Some (BufferedStore.__init__ content_store_of d)
               else None
           end.
Proof.
  induction ks as [|k ks IH]; intros m.
  - exists m. split; [done|]. split; [done|]. intros d.
    destruct (MultiStore.cod_stores m !! d); [done|].
    rewrite decide_False; [done|]. apply not_elem_of_nil.
  - cbn [foldM]. unfold bind at 1. unfold bind at 1, MultiStore.self, gets.
    cbn [fst].
    destruct (decide (¬ is_Some (MultiStore.cod_stores m !! k))) as [Hnew|Hold].
    + unfold MultiStore.add_nod_store, bind at 1, MultiStore.self, gets.
      cbn [fst]. unfold MultiStore.set_cod_stores, modify. cbn [fst snd].
      destruct (IH (MultiStore.with_cod_stores
                      (<[k := BufferedStore.__init__ content_store_of k]>
                         (MultiStore.cod_stores m)) m))
        as (m' & Hrun & Hst & Hcod).
      exists m'. split; [done|]. split; [done|]. intros d. rewrite Hcod.
      cbn [MultiStore.cod_stores MultiStore.with_cod_stores].
      destruct (decide (d = k)) as [->|Hne].
      * rewrite lookup_insert_eq.
        assert (MultiStore.cod_stores m !! k = None) as ->
          by (destruct (MultiStore.cod_stores m !! k); [|done];
              exfalso; apply Hnew; by eexists).
        rewrite decide_True; [done|apply list_elem_of_here].
      * rewrite lookup_insert_ne by done.
        destruct (MultiStore.cod_stores m !! d); [done|].
        destruct (decide (d ∈ ks)) as [Hin|Hout].
        -- rewrite decide_True; [done|by apply list_elem_of_further].
        -- rewrite decide_False; [done|].
           intros Hc. apply elem_of_cons in Hc. destruct Hc; done.
    + unfold ret at 1. destruct (IH m) as (m' & Hrun & Hst & Hcod).
      exists m'. split; [done|]. split; [done|]. intros d. rewrite Hcod.
      destruct (MultiStore.cod_stores m !! d) eqn:Hd; [done|].
      destruct (decide (d ∈ ks)) as [Hin|Hout].
      * rewrite decide_True; [done|by apply list_elem_of_further].
      * rewrite decide_False; [done|].
        intros Hc. apply elem_of_cons in Hc as [->|Hc]; [|done].
        apply Hold. rewrite Hd. by intros [? ?].
Qed.

(** X18.  When the tracked list [_stores] is not stale (if it has as many
    entries as the scope has destinations, it is the list of the
    destinations of the scope) and no registered destination has left the
    scope, [update_nod_stores] returns normally: every sub-link that was
    registered is kept as it is, every destination of the scope that had
    none gets a newly constructed [BufferedStore], and nothing else is
    registered; the medium is not touched. *)
Theorem update_adds_the_new_destinations (m : MultiStore.state V)
    (e : ext V Med) (sidx : gmap Handle Z) :
  scope_idx = Some sidx ->
  (size sidx = length (MultiStore._stores m) ->
   MultiStore._stores m = (map_to_list sidx).*1) ->
  (forall d, is_Some (MultiStore.cod_stores m !! d) -> is_Some (sidx !! d)) ->
  exists m',
    MultiStore.update_nod_stores content_store_of scope_idx (m, e)
    = (Ok tt, (m', e))
    /\ MultiStore._stores m' = (map_to_list sidx).*1
    /\ dom (MultiStore.cod_stores m') = dom sidx
    /\ forall d,
         MultiStore.cod_stores m' !! d
         = match MultiStore.cod_stores m !! d with
           | Some b => Some b
           | None =>
               if decide (is_Some (sidx !! d))
               then Some (BufferedStore.__init__ content_store_of d)
               else None
           end.
Proof.
  intros Hscope Hfresh Hkept.
  assert (forall d, d ∈ (map_to_list sidx).*1 <-> is_Some (sidx !! d)) as Hkeys.
  { intros d. rewrite list_elem_of_fmap. split.
    - intros ([d' z] & -> & Hin). apply elem_of_map_to_list in Hin. by eexists.
    - intros [z Hz]. exists (d, z). split; [done|]. by apply elem_of_map_to_list. }
  destruct (removal_loop_idle e sidx (size (MultiStore.cod_stores m))
              (map_to_list (MultiStore.cod_stores m)).*1 Hscope) with (m := m)
    as (m1 & Hloop & Hcod1 & Hfresh1); [|done|done|].
  { intros k Hk. apply Hkeys, Hkept.
    apply list_elem_of_fmap in Hk as ([k' b] & -> & Hin).
    apply elem_of_map_to_list in Hin. by eexists. }
  destruct (addition_loop_run e (map_to_list sidx).*1
              (MultiStore.with_stores (map_to_list sidx).*1 m1))
    as (m2 & Hadd & Hst2 & Hcod2).
  assert (forall d,
            MultiStore.cod_stores m2 !! d
            = match MultiStore.cod_stores m !! d with
              | Some b => Some b
              | None =>
                  if decide (is_Some (sidx !! d))
                  then Some (BufferedStore.__init__ content_store_of d)
                  else None
              end) as Hall.
  { intros d. rewrite Hcod2. cbn [MultiStore.cod_stores MultiStore.with_stores].
    rewrite Hcod1. destruct (MultiStore.cod_stores m !! d); [done|].
    destruct (decide (is_Some (sidx !! d))) as [Hin|Hout].
    - rewrite decide_True; [done|by apply Hkeys].
    - rewrite decide_False; [done|]. intros Hc. by apply Hout, Hkeys. }
  exists m2. split; [|split; [done|split; [|done]]].
  - unfold MultiStore.update_nod_stores, bind at 1.
    change (MultiStore.self (m, e)) with (@Ok (MultiStore.state V) m, (m, e)).
    cbv beta iota. unfold bind at 1. rewrite Hloop.
    unfold bind at 1. rewrite (stores_refreshed m1 e sidx Hscope Hfresh1).
    exact Hadd.
  - apply set_eq. intros d. rewrite !elem_of_dom, Hall.
    destruct (MultiStore.cod_stores m !! d) as [b|] eqn:Hd.
    + split; [intros _; apply Hkept; by eexists|by eexists].
    + case_decide; [by split; [|eexists]|].
      split; [by intros [? ?]|done].
Qed.

Lemma fill_loop_run (e : ext V Med) (items : list Key) (values : list val)
    (m : MultiStore.state V) (n0 : nat) (ks : list Handle) :
  NoDup ks ->
  forall cod : gmap Handle (BufferedStore.state V),
  (forall k, k ∈ ks -> is_Some (cod !! k)) ->
  size cod = n0 ->
  exists cod',
    dict_for (fun w : W => size (MultiStore.cod_stores (fst w))) n0 ks
      (fun s _ =>
         MultiStore.on_cod_store s (BufferedStore._add_new idx items values))
      tt (MultiStore.with_cod_stores cod m, e)
    = (Ok tt, (MultiStore.with_cod_stores cod' m, e))
    /\ forall d,
         cod' !! d
         = if decide (d ∈ ks)
           then (fun b => fst (snd (BufferedStore._add_new idx items values
                                      (b, e)))) <$> cod !! d
           else cod !! d.
Proof.
  intros Hnd. induction ks as [|k ks IH]; intros cod Hks Hsize.
  - exists cod. cbn [dict_for]. unfold bind, gets. cbn [fst MultiStore.cod_stores
      MultiStore.with_cod_stores]. rewrite decide_True by done.
    split; [done|]. intros d. rewrite decide_False; [done|apply not_elem_of_nil].
  - apply NoDup_cons in Hnd as [Hk Hnd].
    destruct (Hks k (list_elem_of_here _ _)) as [b Hb].
    destruct (StoreMore.buffered_add_new_run idx items values b e)
      as (b' & Hrun & _).
    cbn [dict_for]. unfold bind at 1, gets.
    cbn [fst MultiStore.cod_stores MultiStore.with_cod_stores].
    rewrite decide_True by done. unfold bind at 1.
    unfold MultiStore.on_cod_store at 1.
    cbn [fst snd MultiStore.cod_stores MultiStore.with_cod_stores].
    rewrite Hb. unfold zoom. cbn [fst snd]. rewrite Hrun.
    cbn [MultiStore.cod_stores MultiStore.with_cod_stores MultiStore._stores].
    destruct (IH Hnd (<[k := b']> cod)) as (cod' & Hloop & Hcod').
    { intros k' Hk'. destruct (decide (k' = k)) as [->|Hne].
      - rewrite lookup_insert_eq. by eexists.
      - rewrite lookup_insert_ne by done. by apply Hks, list_elem_of_further. }
    { rewrite map_size_insert_Some; [done|by eexists]. }
    exists cod'. split; [exact Hloop|]. intros d. rewrite Hcod'.
    destruct (decide (d = k)) as [->|Hne].
    + rewrite decide_False by done. rewrite lookup_insert_eq.
      rewrite decide_True by apply list_elem_of_here. rewrite Hb. cbn.
      by rewrite Hrun.
    + rewrite lookup_insert_ne by done.
      destruct (decide (d ∈ ks)) as [Hin|Hout].
      * rewrite decide_True; [done|by apply list_elem_of_further].
      * rewrite decide_False; [done|].
        intros Hc. apply elem_of_cons in Hc. destruct Hc; done.
Qed.

(** X19.  When the destinations are up to date, a fill-back into a
    [MultiStore] reaches every registered sub-link and nothing else: each
    sub-link ends in the state its own [_add_new] gives for the same keys
    and values, the set of destinations is unchanged and the medium is not
    called. *)
Theorem fill_back_reaches_every_destination (m m1 : MultiStore.state V)
    (e e1 : ext V Med) (items : list Key) (values : list val) :
  MultiStore.reconcile content_store_of scope_idx (m, e) = (Ok tt, (m1, e1)) ->
  MultiStore._add_new idx content_store_of scope_idx items values (m, e)
  = (Ok tt,
     (MultiStore.with_cod_stores
        ((fun b => fst (snd (BufferedStore._add_new idx items values (b, e1))))
           <$> MultiStore.cod_stores m1) m1, e1)).
Proof.
  intros Hrec. unfold MultiStore._add_new, bind at 1. rewrite Hrec.
  unfold bind at 1.
  change (MultiStore.self (m1, e1)) with (@Ok (MultiStore.state V) m1, (m1, e1)).
  cbv beta iota.
  destruct (fill_loop_run e1 items values m1 (size (MultiStore.cod_stores m1))
              (map_to_list (MultiStore.cod_stores m1)).*1
              (NoDup_fst_map_to_list _) (MultiStore.cod_stores m1))
    as (cod' & Hloop & Hcod'); [|done|].
  { intros k Hk. apply list_elem_of_fmap in Hk as ([k' b] & -> & Hin).
    apply elem_of_map_to_list in Hin. by eexists. }
  assert (MultiStore.with_cod_stores (MultiStore.cod_stores m1) m1 = m1) as Hm1
    by by destruct m1.
  rewrite Hm1 in Hloop. rewrite Hloop. f_equal. f_equal. f_equal.
  apply map_eq. intros d. rewrite Hcod', lookup_fmap.
  case_decide as Hd; [done|].
  destruct (MultiStore.cod_stores m1 !! d) as [b|] eqn:Hb; [|done].
  exfalso. apply Hd. apply list_elem_of_fmap. exists (d, b).
  split; [done|]. by apply elem_of_map_to_list.
Qed.

Lemma merge_same (vs : list val) :
  Forall is_Some vs -> MultiStore.merge vs vs = vs.
Proof.
  unfold MultiStore.merge. induction 1 as [|x vs [v ->] _ IH]; [done|].
  cbn [zip_with]. by rewrite IH.
Qed.

Lemma foldl_merge_same (vs : list val) (rs : list (list val)) :
  Forall is_Some vs -> (forall r, r ∈ rs -> r = vs) ->
  foldl MultiStore.merge vs rs = vs.
Proof.
  intros Hall. induction rs as [|r rs IH]; intros Hrs; [done|].
  cbn [foldl]. rewrite (Hrs r (list_elem_of_here _ _)), (merge_same vs Hall).
  apply IH. intros r' Hr'. by apply Hrs, list_elem_of_further.
Qed.

Lemma hit_loop_run (e : ext V Med) (items : list Key) (vs : list val)
    (m : MultiStore.state V) (ks : list Handle) :
  Forall is_Some vs ->
  (forall k, k ∈ ks ->
     exists b, MultiStore.cod_stores m !! k = Some b
               /\ ChainDict._get_list (BufferedStore._cache b) items = vs) ->
  forall acc : gmap Handle (list val),
  dict_for (fun w : W => size (MultiStore.cod_stores (fst w)))
    (size (MultiStore.cod_stores m)) ks
    (fun s results_list =>
       r <- MultiStore.on_cod_store s
              (BufferedStore.__getitem__ zero drv idx items) ;;
       ret (<[s := r]> results_list)) acc (m, e)
  = (Ok (foldl (fun a k => <[k := vs]> a) acc ks), (m, e)).
Proof.
  intros Hall. induction ks as [|k ks IH]; intros Hks acc.
  - cbn [dict_for foldl]. unfold bind, gets. cbn [fst].
    by rewrite decide_True by done.
  - destruct (Hks k (list_elem_of_here _ _)) as (b & Hb & Hvs).
    cbn [dict_for foldl]. unfold bind at 1, gets. cbn [fst].
    rewrite decide_True by done. unfold bind at 1. unfold bind at 1.
    unfold MultiStore.on_cod_store at 1. cbn [fst snd]. rewrite Hb.
    unfold zoom. cbn [fst snd].
    rewrite (StoreMore.buffered_hit_run zero drv idx b e items)
      by (by rewrite Hvs).
    rewrite Hvs, (insert_id _ _ _ Hb).
    assert (MultiStore.with_cod_stores (MultiStore.cod_stores m) m = m) as ->
      by by destruct m.
    unfold ret at 1. apply IH.
    intros k' Hk'. by apply Hks, list_elem_of_further.
Qed.

Lemma foldl_insert_same (vs : list val) (ks : list Handle) :
  forall acc : gmap Handle (list val),
  (forall d r, acc !! d = Some r -> r = vs) ->
  forall d r, foldl (fun a k => <[k := vs]> a) acc ks !! d = Some r -> r = vs.
Proof.
  induction ks as [|k ks IH]; intros acc Hacc; [exact Hacc|].
  cbn [foldl]. apply IH. intros d r.
  destruct (decide (d = k)) as [->|Hne].
  - rewrite lookup_insert_eq. by intros [= <-].
  - rewrite lookup_insert_ne by done. apply Hacc.
Qed.

(** X20.  When the cache of every destination has a value for every
    requested key, and the same one in all of them, a batch get on a
    [MultiStore] with at least one destination returns these values; nothing
    is loaded, and the sub-links are left as they are. *)
Theorem fan_out_get_from_the_caches (m m1 : MultiStore.state V)
    (e e1 : ext V Med) (items : list Key) (vs : list val) :
  MultiStore.reconcile content_store_of scope_idx (m, e) = (Ok tt, (m1, e1)) ->
  size (MultiStore.cod_stores m1) <> 0 ->
  Forall is_Some vs ->
  (forall d b, MultiStore.cod_stores m1 !! d = Some b ->
               ChainDict._get_list (BufferedStore._cache b) items = vs) ->
  MultiStore._get_list zero drv idx content_store_of scope_idx items (m, e)
  = (Ok vs, (m1, e1)).
Proof.
  intros Hrec Hsize Hall Hcache.
  assert (MultiStore.query_all zero drv idx items (m1, e1)
          = (Ok (foldl (fun a k => <[k := vs]> a) ∅
                       (map_to_list (MultiStore.cod_stores m1)).*1), (m1, e1)))
    as Hquery.
  { unfold MultiStore.query_all, bind at 1.
    change (MultiStore.self (m1, e1))
      with (@Ok (MultiStore.state V) m1, (m1, e1)).
    cbv beta iota. apply hit_loop_run; [done|].
    intros k Hk. apply list_elem_of_fmap in Hk as ([k' b] & -> & Hin).
    apply elem_of_map_to_list in Hin. exists b. split; [done|].
    by apply (Hcache k'). }
  pose proof (query_all_dom zero drv idx items _ _ _ Hquery) as Hdom.
  cbn [fst] in Hdom.
  unfold MultiStore._get_list, bind at 1. rewrite Hrec. unfold bind at 1.
  change (MultiStore.self (m1, e1))
    with (@Ok (MultiStore.state V) m1, (m1, e1)).
  cbv beta iota. rewrite decide_False by done. unfold bind at 1.
  rewrite Hquery.
  set (R := foldl (fun a k => <[k := vs]> a) ∅
                  (map_to_list (MultiStore.cod_stores m1)).*1) in *.
  assert (forall d r, R !! d = Some r -> r = vs) as HR.
  { apply foldl_insert_same. intros d r. by rewrite lookup_empty. }
  destruct (map_to_list R) as [|[s0 r0] entries] eqn:Hentries.
  - exfalso. apply Hsize. apply map_to_list_empty_iff in Hentries.
    rewrite Hentries, dom_empty_L in Hdom.
    apply map_size_empty_iff. apply dom_empty_iff_L. by symmetry.
  - rewrite reduce_cons.
    assert (r0 = vs) as ->.
    { apply (HR s0). apply elem_of_map_to_list. rewrite Hentries.
      apply list_elem_of_here. }
    rewrite foldl_merge_same; [done|done|].
    intros r Hr. apply list_elem_of_fmap in Hr as ([s r'] & -> & Hin).
    apply (HR s). apply elem_of_map_to_list. rewrite Hentries.
    by apply list_elem_of_further.
Qed.
End Facts.
End MultiStoreMore.

(** * The further properties at concrete inputs *)

Module ChainMoreExamples.
Import Heap Demo DemoMore Assign ChainMore.

(** The chain behind [link_b] of [Demo.full_chain] is well formed. *)
Lemma cache_chain_ok : Link.chain_ok (heap full_chain) 2 link_b.
Proof.
  exists obj_cache. split; [reflexivity|]. split; [intros items; reflexivity|].
  exists obj_fn. split; [reflexivity|]. split; [intros items; reflexivity|].
  exact I.
Qed.

(** X3 at the caching link of the full chain. *)
Lemma empty_batch_stays_in_front_witness :
  heap full_chain !! link_b = Some obj_cache
  /\ o_cls obj_cache <> CWrap
  /\ Link.getitem 1 link_b [] full_chain
     = (Ok [], {| heap := heap full_chain; trace := [Getitem link_b []] |}).
Proof.
  assert (o_cls obj_cache <> CWrap) as Hcls by discriminate.
  split; [reflexivity|]. split; [exact Hcls|].
  exact (empty_batch_stays_in_front 0 full_chain link_b obj_cache
           eq_refl Hcls).
Defined.

(** X4 at the full chain and a batch that names [key8] twice. *)
Lemma expand_multi_asks_each_key_once_witness :
  exists rep w2,
    heap full_chain !! link_c = Some obj_multi
    /\ o_cls obj_multi = CExpandMulti
    /\ post obj_multi = Some link_b
    /\ [key8; key7; key8] <> []
    /\ Link.getitem 2 link_b (ExpandMulti.uniques [key8; key7; key8])
         {| heap := heap full_chain;
            trace := trace full_chain ++ [Getitem link_c [key8; key7; key8]] |}
       = (Ok rep, w2)
    /\ length rep = length (ExpandMulti.uniques [key8; key7; key8])
    /\ length (ExpandMulti.uniques [key8; key7; key8]) = 2
    /\ exists vs,
         Link.getitem 3 link_c [key8; key7; key8] full_chain = (Ok vs, w2)
         /\ length vs = 3
         /\ forall i k, [key8; key7; key8] !! i = Some k ->
              exists j, ExpandMulti.uniques [key8; key7; key8] !! j = Some k
                        /\ vs !! i = rep !! j.
Proof.
  assert ([key8; key7; key8] <> []) as Hne by discriminate.
  eexists _, _.
  split; [reflexivity|]. split; [reflexivity|]. split; [reflexivity|].
  split; [exact Hne|].
  split; [vm_compute; reflexivity|].
  split; [vm_compute; reflexivity|].
  split; [vm_compute; reflexivity|].
  exact (proj2 (proj2
    (expand_multi_asks_each_key_once 2 full_chain link_c link_b obj_multi
       [key8; key7; key8] _ _ eq_refl eq_refl eq_refl Hne eq_refl eq_refl))).
Defined.

(** X5 at the empty link of [Demo.three_links]. *)
Lemma set_then_get_on_a_link_witness :
  heap three_links !! link_b = Some obj_b
  /\ o_cls obj_b = CChainDict
  /\ NoDup [key7; key8]
  /\ length [Some 5%Z; Some 6%Z] = length [key7; key8]
  /\ Forall is_Some [Some 5%Z; Some 6%Z]
  /\ (setitem 1 link_b [key7; key8] [Some 5%Z; Some 6%Z] ;;;
      Link.getitem 1 link_b [key7; key8]) three_links
     = (Ok [Some 5%Z; Some 6%Z],
        {| heap := <[link_b := plain {[ key7 := Some 5%Z; key8 := Some 6%Z ]}]>
                     (heap three_links);
           trace := [Getitem link_b [key7; key8]] |}).
Proof.
  assert (NoDup [key7; key8]) as Hnd by (apply (bool_decide_unpack _); vm_compute; exact I).
  assert (Forall is_Some [Some 5%Z; Some 6%Z]) as Hall
    by (repeat constructor; by eexists).
  split; [reflexivity|]. split; [reflexivity|]. split; [exact Hnd|].
  split; [reflexivity|]. split; [exact Hall|].
  rewrite (set_then_get_on_a_link 0 0 three_links link_b obj_b
             [key7; key8] [Some 5%Z; Some 6%Z] eq_refl eq_refl Hnd eq_refl Hall).
  vm_compute. reflexivity.
Defined.

(** X6 at the caching link of the full chain: [key8] comes from the
    function behind it and is in the link afterwards. *)
Lemma get_fills_the_front_link_witness :
  Link.chain_ok (heap full_chain) 2 link_b
  /\ 2 <= 2
  /\ heap full_chain !! link_b = Some obj_cache
  /\ o_cls obj_cache = CChainDict
  /\ exists w' o',
       Link.getitem 2 link_b [key7; key8] full_chain
       = (Ok [Some 1%Z; Some 80%Z], w')
       /\ heap w' !! link_b = Some o'
       /\ ChainDict._get (o_dict o') key8 = Some 80%Z
       /\ Link.getitem 1 link_b [key7; key8] w'
          = (Ok [Some 1%Z; Some 80%Z],
             {| heap := heap w';
                trace := trace w' ++ [Getitem link_b [key7; key8]] |}).
Proof.
  split; [exact cache_chain_ok|]. split; [lia|]. split; [reflexivity|].
  split; [reflexivity|].
  destruct (get_fills_the_front_link 2 2 full_chain link_b obj_cache
              [key7; key8] cache_chain_ok (le_n 2) eq_refl eq_refl)
    as (w' & o' & Hrun & Hl & _ & _ & Hget & Hagain).
  exists w', o'. split; [exact Hrun|]. split; [exact Hl|].
  split.
  - apply (Hget key8). apply list_elem_of_further, list_elem_of_here.
  - apply (Hagain ltac:(repeat constructor; by eexists) 0).
Defined.

(** X7 at the caching link of the full chain. *)
Lemma expand_single_unwraps_witness :
  Link.chain_ok (heap full_chain) 2 link_b
  /\ 2 <= 2
  /\ (exists w',
        ExpandSingle.__getitem__ (Some (Link.getitem 2 link_b))
                                 (ExpandSingle.Single key8) full_chain
        = (Ok (ExpandSingle.Value (Some 80%Z)), w'))
  /\ (exists w',
        ExpandSingle.__getitem__ (Some (Link.getitem 2 link_b))
                                 (ExpandSingle.Batch [key8]) full_chain
        = (Ok (ExpandSingle.Values [Some 80%Z]), w')).
Proof.
  split; [exact cache_chain_ok|]. split; [lia|].
  exact (expand_single_unwraps 2 2 full_chain link_b key8 [key8]
           cache_chain_ok (le_n 2)).
Defined.

(** X8 at an [ExpandMulti] link in front of a [ChainDict] link. *)
Lemma set_through_a_delegating_link_witness :
  heap full_chain !! link_c = Some obj_multi
  /\ (o_cls obj_multi = CWrap \/ o_cls obj_multi = CExpandMulti)
  /\ post obj_multi = Some link_b
  /\ heap full_chain !! link_b = Some obj_cache
  /\ o_cls obj_cache = CChainDict
  /\ NoDup [key8; key9]
  /\ length [Some 5%Z; Some 6%Z] = length [key8; key9]
  /\ Forall is_Some [Some 5%Z; Some 6%Z]
  /\ (setitem 2 link_c [key8; key9] [Some 5%Z; Some 6%Z] ;;;
      Link.getitem 1 link_b [key8; key9]) full_chain
     = (Ok [Some 5%Z; Some 6%Z],
        {| heap := <[link_b := with_dict {[ key7 := Some 1%Z; key8 := Some 5%Z;
                                            key9 := Some 6%Z ]} obj_cache]>
                     (heap full_chain);
           trace := [Getitem link_b [key8; key9]] |}).
Proof.
  assert (o_cls obj_multi = CWrap \/ o_cls obj_multi = CExpandMulti) as Hcls
    by (right; reflexivity).
  assert (NoDup [key8; key9]) as Hnd
    by (apply (bool_decide_unpack _); vm_compute; exact I).
  assert (Forall is_Some [Some 5%Z; Some 6%Z]) as Hall
    by (repeat constructor; by eexists).
  split; [reflexivity|]. split; [exact Hcls|]. split; [reflexivity|].
  split; [reflexivity|]. split; [reflexivity|]. split; [exact Hnd|].
  split; [reflexivity|]. split; [exact Hall|].
  rewrite (set_through_a_delegating_link 0 0 full_chain link_c link_b
             obj_multi obj_cache [key8; key9] [Some 5%Z; Some 6%Z]
             eq_refl Hcls eq_refl eq_refl eq_refl Hnd eq_refl Hall).
  vm_compute. reflexivity.
Defined.

(** X9 at the three links of [Demo.three_links]. *)
Lemma add_on_a_sum_drops_the_middle_link_witness :
  heap three_links !! link_c = Some obj_c
  /\ exists w',
       (x <- ChainDict.__add__ link_b link_c ;; ChainDict.__add__ link_a x)
         three_links = (Ok link_c, w')
       /\ ChainDict.__add__ link_a link_c three_links = (Ok link_c, w')
       /\ heap w' !! link_c = Some (with_post (Some link_a) obj_c)
       /\ (link_b <> link_c -> heap w' !! link_b = heap three_links !! link_b).
Proof.
  split; [reflexivity|].
  exact (add_on_a_sum_drops_the_middle_link three_links link_a link_b link_c
           obj_c eq_refl).
Defined.
End ChainMoreExamples.

Module StoreMoreExamples.
Import Medium Demo DemoMore Buffered StoreMore.

(** The outcome of a run, taken apart. *)
Lemma run_eta {A B C : Type} (x : A * (B * C)) :
  x = (fst x, (fst (snd x), snd (snd x))).
Proof. by destruct x as [? [? ?]]. Qed.

(** [Demo.buffered1] has an empty buffer. *)
Lemma buffered1_covered : covered buffered1.
Proof.
  intros k [v Hk].
  change (Store.data (BufferedStore._store buffered1))
    with (∅ : gmap Key (option Z)) in Hk.
  by rewrite lookup_empty in Hk.
Qed.

(** The buffer of [DemoMore.buffered_filled] has [key7], and so has its
    cache. *)
Lemma buffered_filled_covered : covered buffered_filled.
Proof.
  intros k [v Hk]. destruct (decide (k = key7)) as [->|Hne].
  - by exists 70%Z.
  - change (Store.data (BufferedStore._store buffered_filled))
      with (<[key7 := Some 70%Z]> (∅ : gmap Key (option Z))) in Hk.
    rewrite lookup_insert_ne in Hk by done. by rewrite lookup_empty in Hk.
Qed.

(** X10 at three keys with the offsets 5, 1 and 3: the medium is asked for
    [1, 3, 5] and the values come back in the order of the request. *)
Lemma store_get_in_request_order_witness :
  (forall k, k ∈ [key7; key8; key9] -> Store.data store1 !! k = None)
  /\ drv_get_list_value demo_drv handle1 [1; 3; 5]%Z med135
     = (Ok [Some 10; Some 30; Some 50]%Z, med135)
  /\ Store.__getitem__ 0%Z demo_drv load_offsets None [key7; key8; key9]
       (store1, ext135)
     = (Ok [Some 50; Some 10; Some 30]%Z,
        (store1,
         {| med := med135; calls := [GetListValue handle1 [1; 3; 5]%Z] |})).
Proof.
  assert (forall k, k ∈ [key7; key8; key9] -> Store.data store1 !! k = None)
    as Hfree by (intros k _; apply lookup_empty).
  assert (drv_get_list_value demo_drv handle1 [1; 3; 5]%Z med135
          = (Ok [Some 10; Some 30; Some 50]%Z, med135)) as Hdrv
    by (vm_compute; reflexivity).
  split; [exact Hfree|]. split; [exact Hdrv|].
  exact (proj1 (store_get_in_request_order 0%Z demo_drv load_offsets store1
                  ext135 [key7; key8; key9] (fun off => Some (10 * off)%Z)
                  med135 Hfree Hdrv)).
Defined.

(** X11 at a limit of one entry and a batch of two: the batch is written
    and the buffer is empty afterwards. *)
Lemma add_new_keeps_buffer_within_limit_witness :
  exists s' e',
    Store.max_save_buffer_size store_limit1 = Some 1%Z
    /\ Store._add_new demo_drv content_offsets [key7; key8]
         [Some 70%Z; Some 80%Z] (store_limit1, ext135) = (Ok tt, (s', e'))
    /\ calls e' = [SetListValue handle1 [1; 5]%Z [Some 80; Some 70]%Z]
    /\ (Z.of_nat (size (Store.data s')) <= 1)%Z
    /\ Store.data s' = ∅.
Proof.
  eexists _, _. split; [reflexivity|].
  split; [vm_compute; reflexivity|].
  split; [reflexivity|].
  destruct (add_new_keeps_buffer_within_limit demo_drv content_offsets
              store_limit1 _ ext135 _ [key7; key8] [Some 70%Z; Some 80%Z] 1%Z
              eq_refl eq_refl) as [Hsize Hflush].
  split; [exact Hsize|]. apply Hflush. vm_compute. reflexivity.
Defined.

(** X12 at a buffered store with [key7] in its buffer. *)
Lemma buffered_keys_stay_cached_witness :
  covered buffered_filled
  /\ covered (fst (snd (BufferedStore._add_new content_offsets [key8]
                          [Some 80%Z] (buffered_filled, ext135))))
  /\ covered (fst (snd (BufferedStore.sync demo_drv content_offsets
                          (buffered_filled, ext135))))
  /\ covered (fst (snd (BufferedStore.__getitem__ 0%Z demo_drv content_offsets
                          [key7; key9] (buffered_filled, ext135)))).
Proof.
  split; [exact buffered_filled_covered|].
  destruct (buffered_keys_stay_cached 0%Z demo_drv content_offsets
              buffered_filled ext135 buffered_filled_covered)
    as (Hadd & Hsync & Hget).
  split; [exact (Hadd _ _ _ _ _ (run_eta _))|].
  split; [exact (Hsync _ _ _ (run_eta _))|].
  exact (proj1 (Hget _ _ _ _ (run_eta _))).
Defined.

(** X13 at a buffered store that has [key7] in its cache: the medium is
    asked for [key8] and [key9] only, and not at all the second time. *)
Lemma buffered_get_loads_once_witness :
  covered buffered_filled
  /\ drv_get_list_value demo_drv handle1 [1; 3]%Z med135
     = (Ok [Some 10; Some 30]%Z, med135)
  /\ exists b',
       let e1 := {| med := med135;
                    calls := [GetListValue handle1 [1; 3]%Z] |} in
       BufferedStore.__getitem__ 0%Z demo_drv load_offsets [key7; key8; key9]
         (buffered_filled, ext135)
       = (Ok [Some 70; Some 10; Some 30]%Z, (b', e1))
       /\ BufferedStore.__getitem__ 0%Z demo_drv load_offsets
            [key7; key8; key9] (b', e1)
          = (Ok [Some 70; Some 10; Some 30]%Z, (b', e1)).
Proof.
  assert (drv_get_list_value demo_drv handle1 [1; 3]%Z med135
          = (Ok [Some 10; Some 30]%Z, med135)) as Hdrv
    by (vm_compute; reflexivity).
  split; [exact buffered_filled_covered|]. split; [exact Hdrv|].
  destruct (buffered_get_loads_once 0%Z demo_drv load_offsets buffered_filled
              ext135 [key7; key8; key9] (fun off => Some (10 * off)%Z) med135
              buffered_filled_covered Hdrv)
    as (b' & Hrun & _ & _ & Hagain).
  exists b'. split; [exact Hrun|].
  apply Hagain. repeat constructor; by eexists.
Defined.

(** X14 at [key7], which is at offset 5 of the content store. *)
Lemma add_new_sync_get_round_trip_witness :
  exists m',
    BufferedStore.content_store buffered1
    = Store.content_store (BufferedStore._store buffered1)
    /\ Store.data (BufferedStore._store buffered1) = ∅
    /\ content_offsets key7 !! BufferedStore.content_store buffered1
       = Some 5%Z
    /\ drv_set_list_value demo_drv handle1 [5%Z] [Some 70%Z] med135
       = (Ok tt, m')
    /\ (BufferedStore._add_new content_offsets [key7] [Some 70%Z] ;;;
        BufferedStore.sync demo_drv content_offsets ;;;
        BufferedStore.__getitem__ 0%Z demo_drv content_offsets [key7])
         (buffered1, ext135)
       = (Ok [Some 70%Z],
          (BufferedStore.with_cache {[ key7 := Some 70%Z ]} buffered1,
           {| med := m';
              calls := [SetListValue handle1 [5%Z] [Some 70%Z]] |})).
Proof.
  eexists. split; [reflexivity|]. split; [reflexivity|].
  split; [reflexivity|]. split; [vm_compute; reflexivity|].
  exact (add_new_sync_get_round_trip 0%Z demo_drv content_offsets buffered1
           ext135 key7 5%Z 70%Z _ eq_refl eq_refl eq_refl eq_refl).
Defined.

(** X17 at a store with three buffered keys. *)
Lemma get_of_a_buffered_key_raises_witness :
  key7 ∈ [key9; key7]
  /\ is_Some (Store.data store1_filled !! key7)
  /\ Store.__getitem__ 0%Z demo_drv content_offsets None [key9; key7]
       (store1_filled, ext135)
     = (Raise TypeError, (store1_filled, ext135)).
Proof.
  assert (key7 ∈ [key9; key7]) as Hin
    by apply list_elem_of_further, list_elem_of_here.
  assert (is_Some (Store.data store1_filled !! key7)) as Hbuf
    by (by exists (Some 70%Z)).
  split; [exact Hin|]. split; [exact Hbuf|].
  exact (get_of_a_buffered_key_raises 0%Z demo_drv content_offsets
           store1_filled ext135 None [key9; key7] key7 Hin Hbuf).
Defined.
End StoreMoreExamples.

Module MultiStoreMoreExamples.
Import Medium Demo DemoMore MultiStoreMore.

(** [DemoMore.fan_first] has a sub-link for [handle1] and no other. *)
Lemma fan_first_cod_stores :
  MultiStore.cod_stores fan_first
  = {[ handle1 := BufferedStore.__init__ content_of handle1 ]}.
Proof. vm_compute. reflexivity. Qed.

(** X18 at a fan-out store set up for the first destination, after the
    scope got the second one. *)
Lemma update_adds_the_new_destinations_witness :
  (size scope_both = length (MultiStore._stores fan_first) ->
   MultiStore._stores fan_first = (map_to_list scope_both).*1)
  /\ (forall d, is_Some (MultiStore.cod_stores fan_first !! d) ->
                is_Some (scope_both !! d))
  /\ exists m',
       MultiStore.update_nod_stores content_of (Some scope_both)
         (fan_first, ext_one) = (Ok tt, (m', ext_one))
       /\ MultiStore._stores m' = [handle1; handle2]
       /\ MultiStore.cod_stores m' !! handle1
          = Some (BufferedStore.__init__ content_of handle1)
       /\ MultiStore.cod_stores m' !! handle2
          = Some (BufferedStore.__init__ content_of handle2).
Proof.
  assert (size scope_both = length (MultiStore._stores fan_first) ->
          MultiStore._stores fan_first = (map_to_list scope_both).*1)
    as Hstores by (intros H; vm_compute in H; discriminate H).
  assert (forall d, is_Some (MultiStore.cod_stores fan_first !! d) ->
                    is_Some (scope_both !! d)) as Hsub.
  { intros d [b Hd]. rewrite fan_first_cod_stores in Hd.
    apply lookup_singleton_Some in Hd as [<- _]. by exists 0%Z. }
  split; [exact Hstores|]. split; [exact Hsub|].
  destruct (update_adds_the_new_destinations content_of (Some scope_both)
              fan_first ext_one scope_both eq_refl Hstores Hsub)
    as (m' & Hrun & Hss & _ & Hcod).
  exists m'. split; [exact Hrun|]. split; [rewrite Hss; vm_compute; reflexivity|].
  split; rewrite Hcod; vm_compute; reflexivity.
Defined.

(** X19 at a fan-out store with two destinations: one fill-back puts
    [key7] into the cache of both. *)
Lemma fill_back_reaches_every_destination_witness :
  MultiStore.reconcile content_of (Some scope_both) (fan_both, ext_one)
  = (Ok tt, (fan_both, ext_one))
  /\ exists m',
       MultiStore._add_new fan_offsets content_of (Some scope_both)
         [key7] [Some 1%Z] (fan_both, ext_one) = (Ok tt, (m', ext_one))
       /\ (exists b, MultiStore.cod_stores m' !! handle1 = Some b
                     /\ BufferedStore._cache b !! key7 = Some (Some 1%Z))
       /\ (exists b, MultiStore.cod_stores m' !! handle2 = Some b
                     /\ BufferedStore._cache b !! key7 = Some (Some 1%Z)).
Proof.
  assert (MultiStore.reconcile content_of (Some scope_both) (fan_both, ext_one)
          = (Ok tt, (fan_both, ext_one))) as Hrec
    by (vm_compute; reflexivity).
  split; [exact Hrec|].
  eexists. split.
  - exact (fill_back_reaches_every_destination fan_offsets content_of
             (Some scope_both) fan_both fan_both ext_one ext_one
             [key7] [Some 1%Z] Hrec).
  - split; eexists; (split; [vm_compute; reflexivity|vm_compute; reflexivity]).
Defined.

(** X20 at a fan-out store whose two destinations have [key7] in their
    caches. *)
Lemma fan_out_get_from_the_caches_witness :
  MultiStore.reconcile content_of (Some scope_both) (fan_filled, ext_one)
  = (Ok tt, (fan_filled, ext_one))
  /\ size (MultiStore.cod_stores fan_filled) <> 0
  /\ Forall is_Some [Some 1%Z]
  /\ (forall d b, MultiStore.cod_stores fan_filled !! d = Some b ->
        ChainDict._get_list (BufferedStore._cache b) [key7] = [Some 1%Z])
  /\ MultiStore._get_list 0%Z demo_drv fan_offsets content_of
       (Some scope_both) [key7] (fan_filled, ext_one)
     = (Ok [Some 1%Z], (fan_filled, ext_one)).
Proof.
  assert (MultiStore.reconcile content_of (Some scope_both)
            (fan_filled, ext_one) = (Ok tt, (fan_filled, ext_one))) as Hrec
    by (vm_compute; reflexivity).
  assert (size (MultiStore.cod_stores fan_filled) <> 0) as Hsize
    by (intros H; vm_compute in H; discriminate H).
  assert (Forall is_Some [Some 1%Z]) as Hall
    by (repeat constructor; by eexists).
  assert (map_Forall
            (fun _ b => ChainDict._get_list (BufferedStore._cache b) [key7]
                        = [Some 1%Z])
            (MultiStore.cod_stores fan_filled)) as Hcache
    by (apply (bool_decide_unpack _); vm_compute; exact I).
  split; [exact Hrec|]. split; [exact Hsize|]. split; [exact Hall|].
  split; [exact Hcache|].
  exact (fan_out_get_from_the_caches 0%Z demo_drv fan_offsets content_of
           (Some scope_both) fan_filled fan_filled ext_one ext_one [key7]
           [Some 1%Z] Hrec Hsize Hall Hcache).
Defined.
End MultiStoreMoreExamples.
